(** * iMi MCP server: the command wrapper [run_imi_command] and its callers

    A shallow embedding of [src/mcp-server/src/imi_mcp/cli_wrapper.py],
    of the result models of [schemas.py] and of the [create_worktree] tool
    of [tools.py], together with the properties of the command execution
    and result extraction protocol.

    Python values are modelled as follows.
    - [str] is a list of Unicode code points ([Z]); [bytes] is a list of
      byte values.
    - [int] is [Z] (Python integers are unbounded).
    - Exceptions are values of type [exn]; a computation that may raise has
      type [Result A]; [try/except] is a match on the result.
    - The host (executable lookup, process creation, the wait on the child)
      is an explicit argument; the calls made on the process API are
      recorded in a trace. *)

From Stdlib Require Import ZArith List String Ascii Bool Lia DecimalString.
Import ListNotations.
Open Scope Z_scope.

(** ** Text *)

Module PyStr.

(** A Python [str]: its code points, in order. *)
Definition str := list Z.

(** The [str] of an ASCII literal of the source. *)
Definition lit (s : string) : str :=
  map (fun a => Z.of_N (N_of_ascii a)) (list_ascii_of_string s).

Definition str_eqb (a b : str) : bool :=
  if list_eq_dec Z.eq_dec a b then true else false.

(** [str.isspace] on one code point: the characters Python's [str.strip()]
    removes when called without arguments. *)
Definition isspace (c : Z) : bool :=
  ((9 <=? c) && (c <=? 13)) || ((28 <=? c) && (c <=? 32))
  || (c =? 133) || (c =? 160) || (c =? 5760)
  || ((8192 <=? c) && (c <=? 8202))
  || (c =? 8232) || (c =? 8233) || (c =? 8239) || (c =? 8287)
  || (c =? 12288).

Fixpoint lstrip (s : str) : str :=
  match s with
  | c :: r => if isspace c then lstrip r else s
  | [] => []
  end.

Definition rstrip (s : str) : str := rev (lstrip (rev s)).

(** [s.strip()] *)
Definition strip (s : str) : str := rstrip (lstrip s).

(** [s.split("\n")]: never empty, [""] splits to [[""]]. *)
Fixpoint split_nl (s : str) : list str :=
  match s with
  | [] => [[]]
  | c :: r =>
      if c =? 10 then [] :: split_nl r
      else match split_nl r with
           | l :: ls => (c :: l) :: ls
           | [] => [[c]]
           end
  end.

(** [s.startswith(p)] *)
Fixpoint startswith (s p : str) {struct p} : bool :=
  match p, s with
  | [], _ => true
  | _ :: _, [] => false
  | a :: p', b :: s' => (a =? b) && startswith s' p'
  end.

(** [str(n)] for an [int]: decimal digits, with a leading minus sign for
    negative numbers. *)
Definition str_of_int (n : Z) : str :=
  lit (NilZero.string_of_int (Z.to_int n)).

(** Truthiness of a [str]: non-empty. *)
Definition truthy (s : str) : bool :=
  match s with [] => false | _ :: _ => true end.

(** A literal of the source or of a test in which the apostrophe stands
    for the double quote. *)
Definition qlit (s : string) : str :=
  map (fun c => if c =? 39 then 34 else c) (lit s).

End PyStr.
Export PyStr.

(** ** Bytes and UTF-8 *)

Module UTF8.

Definition bytes := list Z.

(** The byte values of a literal. *)
Definition blit (s : string) : bytes := lit s.

Definition cont (b : Z) : bool := (128 <=? b) && (b <=? 191).

(** Bounds of the first continuation byte: they exclude overlong forms,
    the surrogate range and code points above U+10FFFF. *)
Definition lo3 (b0 : Z) : Z := if b0 =? 224 then 160 else 128.
Definition hi3 (b0 : Z) : Z := if b0 =? 237 then 159 else 191.
Definition lo4 (b0 : Z) : Z := if b0 =? 240 then 144 else 128.
Definition hi4 (b0 : Z) : Z := if b0 =? 244 then 143 else 191.

Definition cp2 (b0 b1 : Z) : Z :=
  Z.lor (Z.shiftl (Z.land b0 31) 6) (Z.land b1 63).
Definition cp3 (b0 b1 b2 : Z) : Z :=
  Z.lor (Z.shiftl (Z.land b0 15) 12)
        (Z.lor (Z.shiftl (Z.land b1 63) 6) (Z.land b2 63)).
Definition cp4 (b0 b1 b2 b3 : Z) : Z :=
  Z.lor (Z.shiftl (Z.land b0 7) 18)
        (Z.lor (Z.shiftl (Z.land b1 63) 12)
               (Z.lor (Z.shiftl (Z.land b2 63) 6) (Z.land b3 63))).

(** [b.decode("utf-8")] with the default strict error handler: [None]
    stands for [UnicodeDecodeError]. *)
Fixpoint decode (bs : bytes) : option str :=
  match bs with
  | [] => Some []
  | b0 :: r0 =>
      if (0 <=? b0) && (b0 <? 128) then option_map (cons b0) (decode r0)
      else if (194 <=? b0) && (b0 <=? 223) then
        match r0 with
        | b1 :: r1 =>
            if cont b1 then option_map (cons (cp2 b0 b1)) (decode r1)
            else None
        | [] => None
        end
      else if (224 <=? b0) && (b0 <=? 239) then
        match r0 with
        | b1 :: b2 :: r2 =>
            if (lo3 b0 <=? b1) && (b1 <=? hi3 b0) && cont b2
            then option_map (cons (cp3 b0 b1 b2)) (decode r2)
            else None
        | _ => None
        end
      else if (240 <=? b0) && (b0 <=? 244) then
        match r0 with
        | b1 :: b2 :: b3 :: r3 =>
            if (lo4 b0 <=? b1) && (b1 <=? hi4 b0) && cont b2 && cont b3
            then option_map (cons (cp4 b0 b1 b2 b3)) (decode r3)
            else None
        | _ => None
        end
      else None
  end.

End UTF8.
Export UTF8.

(** ** Exceptions *)

Module Exn.

(** The exceptions of the model. All of them derive from [Exception];
    cancellation and interpreter exit ([BaseException]) are outside the
    model. [HostError] is any other [Exception] raised by the process API
    (an [OSError] on spawn, a [ValueError] on an argument), with its text. *)
Inductive exn :=
| JSONDecodeError
| UnicodeDecodeError
| ValidationError
| TypeError
| AttributeError
| TimeoutError
| RecursionError
| ValueError
| RuntimeError (msg : str)
| HostError (msg : str).

(** [str(e)]. The text of an exception raised by a library is rendered by
    the name of its class: the libraries' wording is not reproduced. *)
Definition str_exn (e : exn) : str :=
  match e with
  | JSONDecodeError => lit "JSONDecodeError"
  | UnicodeDecodeError => lit "UnicodeDecodeError"
  | ValidationError => lit "ValidationError"
  | TypeError => lit "TypeError"
  | AttributeError => lit "AttributeError"
  | TimeoutError => lit ""
  | RecursionError => lit "RecursionError"
  | ValueError => lit "ValueError"
  | RuntimeError msg => msg
  | HostError msg => msg
  end.

Inductive Result (A : Type) :=
| Ok (a : A)
| Raise (e : exn).
Arguments Ok {A} a.
Arguments Raise {A} e.

Definition bind {A B : Type} (r : Result A) (f : A -> Result B) : Result B :=
  match r with
  | Ok a => f a
  | Raise e => Raise e
  end.

End Exn.
Export Exn.

Notation "x <- c1 ;; c2" := (bind c1 (fun x => c2))
  (at level 61, c1 at next level, right associativity).

(** ** The limits of the interpreter *)

Module Interp.

(** [int_max_str_digits] is [sys.get_int_max_str_digits()]: the number of
    decimal digits beyond which [int()] and [str()] raise [ValueError]
    (4300 unless changed, 0 for no limit). [json_max_depth] is the number
    of nested objects and arrays [json.loads] can enter before the
    interpreter raises [RecursionError]; it comes from the recursion limit
    and from the depth of the stack at the call. *)
Record Limits := {
  int_max_str_digits : Z;
  json_max_depth : nat
}.

(** The test of CPython on the number of digits of an integer that is
    read from or written as decimal text. *)
Definition too_many_digits (lim : Limits) (digits : nat) : bool :=
  (640 <? Z.of_nat digits) && (0 <? int_max_str_digits lim)
  && (int_max_str_digits lim <? Z.of_nat digits).

(** [str(n)] for an [int], as a computation: beyond the limit it raises
    [ValueError]. The sign does not count as a digit. *)
Definition py_str_int (lim : Limits) (n : Z) : Result str :=
  if too_many_digits lim (List.length (str_of_int (Z.abs n)))
  then Raise ValueError
  else Ok (str_of_int n).

End Interp.
Export Interp.

(** ** JSON values and [json.loads] *)

Module Json.

(** A Python [float] as [json.loads] reads it: a decimal literal kept
    exactly (sign, digits without the point, power of ten), or one of the
    constants [NaN], [Infinity], [-Infinity] that Python's decoder accepts. *)
Inductive pyfloat :=
| FNaN
| FInf (neg : bool)
| FDec (neg : bool) (digits : Z) (exp10 : Z).

(** The value [json.loads] returns. A [dict] keeps its keys in insertion
    order, each key once. *)
#[warnings="-register-all"]
Inductive json :=
| JNull
| JBool (b : bool)
| JInt (n : Z)
| JFloat (f : pyfloat)
| JString (s : str)
| JArray (l : list json)
| JObject (kvs : list (str * json)).

Definition dict := list (str * json).

(** [d[k] = v] *)
Fixpoint dict_set (k : str) (v : json) (d : dict) : dict :=
  match d with
  | [] => [(k, v)]
  | (k', v') :: r =>
      if str_eqb k k' then (k', v) :: r else (k', v') :: dict_set k v r
  end.

Fixpoint dict_lookup (k : str) (d : dict) : option json :=
  match d with
  | [] => None
  | (k', v) :: r => if str_eqb k k' then Some v else dict_lookup k r
  end.

(** [k in d] *)
Definition dict_mem (k : str) (d : dict) : bool :=
  match dict_lookup k d with Some _ => true | None => false end.

(** [d.get(k, default)]; Python's [None] is [JNull]. *)
Definition dict_get (k : str) (default : json) (d : dict) : json :=
  match dict_lookup k d with Some v => v | None => default end.

(** *** The scanner, after CPython's [_json] module *)

Definition is_ws (c : Z) : bool :=
  (c =? 32) || (c =? 9) || (c =? 10) || (c =? 13).

Fixpoint skip_ws (s : str) : str :=
  match s with
  | c :: r => if is_ws c then skip_ws r else s
  | [] => []
  end.

Definition is_digit (c : Z) : bool := (48 <=? c) && (c <=? 57).

Fixpoint span_digits (s : str) : str * str :=
  match s with
  | c :: r =>
      if is_digit c then let (d, r') := span_digits r in (c :: d, r')
      else ([], s)
  | [] => ([], [])
  end.

Definition digits_val (d : str) : Z :=
  fold_left (fun a c => 10 * a + (c - 48)) d 0.

Definition hex_val (c : Z) : option Z :=
  if (48 <=? c) && (c <=? 57) then Some (c - 48)
  else if (97 <=? c) && (c <=? 102) then Some (c - 97 + 10)
  else if (65 <=? c) && (c <=? 70) then Some (c - 65 + 10)
  else None.

Definition hex4 (a b c d : Z) : option Z :=
  match hex_val a, hex_val b, hex_val c, hex_val d with
  | Some x, Some y, Some z, Some w =>
      Some (Z.lor (Z.shiftl (Z.lor (Z.shiftl (Z.lor (Z.shiftl x 4) y) 4) z) 4) w)
  | _, _, _, _ => None
  end.

Definition is_high_surrogate (c : Z) : bool := (55296 <=? c) && (c <=? 56319).
Definition is_low_surrogate (c : Z) : bool := (56320 <=? c) && (c <=? 57343).
Definition join_surrogates (hi lo : Z) : Z :=
  65536 + Z.lor (Z.shiftl (Z.land hi 1023) 10) (Z.land lo 1023).

(** The character of a one-letter escape. *)
Definition unescape (c : Z) : option Z :=
  if (c =? 34) || (c =? 92) || (c =? 47) then Some c
  else if c =? 98 then Some 8
  else if c =? 102 then Some 12
  else if c =? 110 then Some 10
  else if c =? 114 then Some 13
  else if c =? 116 then Some 9
  else None.

(** [scanstring] in strict mode, started after the opening quote: the
    decoded string and the text after the closing quote. [acc] holds the
    characters read so far, last first. *)
Fixpoint scanstring (s : str) (acc : str) : option (str * str) :=
  match s with
  | [] => None
  | c :: r =>
      if c =? 34 then Some (rev acc, r)
      else if c =? 92 then
        match r with
        | [] => None
        | e :: r1 =>
            if e =? 117 then
              match r1 with
              | h1 :: h2 :: h3 :: h4 :: r2 =>
                  match hex4 h1 h2 h3 h4 with
                  | None => None
                  | Some u =>
                      if is_high_surrogate u then
                        match r2 with
                        | b :: u' :: g1 :: g2 :: g3 :: g4 :: r3 =>
                            if (b =? 92) && (u' =? 117) then
                              match hex4 g1 g2 g3 g4 with
                              | None => None
                              | Some u2 =>
                                  if is_low_surrogate u2
                                  then scanstring r3 (join_surrogates u u2 :: acc)
                                  else scanstring r2 (u :: acc)
                              end
                            else scanstring r2 (u :: acc)
                        | _ => scanstring r2 (u :: acc)
                        end
                      else scanstring r2 (u :: acc)
                  end
              | _ => None
              end
            else
              match unescape e with
              | None => None
              | Some c' => scanstring r1 (c' :: acc)
              end
        end
      else if c <=? 31 then None
      else scanstring r (c :: acc)
  end.

(** The optional fraction: a point followed by at least one digit. *)
Definition match_frac (s : str) : str * str :=
  match s with
  | c :: r =>
      if c =? 46 then
        match span_digits r with
        | ([], _) => ([], s)
        | (d, r') => (d, r')
        end
      else ([], s)
  | [] => ([], s)
  end.

(** The optional exponent: [e] or [E], an optional sign, at least one
    digit. *)
Definition match_exp (s : str) : option Z * str :=
  match s with
  | c :: r =>
      if (c =? 101) || (c =? 69) then
        let '(neg, r1) :=
          match r with
          | sg :: r' =>
              if sg =? 45 then (true, r')
              else if sg =? 43 then (false, r')
              else (false, r)
          | [] => (false, r)
          end in
        match span_digits r1 with
        | ([], _) => (None, s)
        | (d, r2) => (Some (if neg then - digits_val d else digits_val d), r2)
        end
      else (None, s)
  | [] => (None, s)
  end.

(** [_match_number]: an optional minus sign, then a single zero or a
    non-zero digit followed by digits, then the optional fraction and the
    optional exponent. Without fraction and exponent the value is an
    [int], read by [int()], which raises [ValueError] on too many digits;
    otherwise it is a [float]. *)
Definition match_number (lim : Limits) (s : str) : Result (json * str) :=
  let '(neg, s1) :=
    match s with
    | c :: r => if c =? 45 then (true, r) else (false, s)
    | [] => (false, s)
    end in
  match s1 with
  | [] => Raise JSONDecodeError
  | c :: r =>
      let int_part :=
        if (49 <=? c) && (c <=? 57)
        then (let (d, r') := span_digits r in Some (c :: d, r'))
        else if c =? 48 then Some ([c], r)
        else None in
      match int_part with
      | None => Raise JSONDecodeError
      | Some (idig, s2) =>
          let (frac, s3) := match_frac s2 in
          let (ex, s4) := match_exp s3 in
          match frac, ex with
          | [], None =>
              if too_many_digits lim (List.length idig) then Raise ValueError
              else Ok (JInt (if neg then - digits_val idig
                             else digits_val idig), s4)
          | _, _ =>
              let e := match ex with Some e => e | None => 0 end in
              Ok (JFloat (FDec neg (digits_val (idig ++ frac))
                               (e - Z.of_nat (List.length frac))), s4)
          end
      end
  end.

(** [scan_once] with the object and array loops. A scan ends with the
    value and the rest of the text, or raises: [JSONDecodeError] on a text
    that is not JSON, [RecursionError] when an object or an array is
    entered and [depth] containers are already open, [ValueError] from
    [int()]. The fuel [n] only makes the recursion structural; [loads]
    gives enough of it ([loads_fuel_enough]). *)
Fixpoint scan_once (lim : Limits) (n depth : nat) (s : str) {struct n}
  : Result (json * str) :=
  match n with
  | O => Raise JSONDecodeError
  | S n' =>
      match s with
      | [] => Raise JSONDecodeError
      | c :: r =>
          if c =? 34 then
            match scanstring r [] with
            | Some (k, r') => Ok (JString k, r')
            | None => Raise JSONDecodeError
            end
          else if c =? 123 then
            match depth with
            | O => Raise RecursionError
            | S depth' =>
                match skip_ws r with
                | c1 :: r1 =>
                    if c1 =? 125 then Ok (JObject [], r1)
                    else parse_members lim n' depth' (c1 :: r1) []
                | [] => Raise JSONDecodeError
                end
            end
          else if c =? 91 then
            match depth with
            | O => Raise RecursionError
            | S depth' =>
                match skip_ws r with
                | c1 :: r1 =>
                    if c1 =? 93 then Ok (JArray [], r1)
                    else parse_elems lim n' depth' (c1 :: r1) []
                | [] => Raise JSONDecodeError
                end
            end
          else if startswith s (lit "null") then Ok (JNull, skipn 4 s)
          else if startswith s (lit "true") then Ok (JBool true, skipn 4 s)
          else if startswith s (lit "false") then Ok (JBool false, skipn 5 s)
          else if startswith s (lit "NaN") then Ok (JFloat FNaN, skipn 3 s)
          else if startswith s (lit "Infinity")
               then Ok (JFloat (FInf false), skipn 8 s)
          else if startswith s (lit "-Infinity")
               then Ok (JFloat (FInf true), skipn 9 s)
          else match_number lim s
      end
  end

with parse_members (lim : Limits) (n depth : nat) (s : str) (acc : dict)
  {struct n} : Result (json * str) :=
  match n with
  | O => Raise JSONDecodeError
  | S n' =>
      match s with
      | [] => Raise JSONDecodeError
      | q :: r =>
          if q =? 34 then
            match scanstring r [] with
            | None => Raise JSONDecodeError
            | Some (k, r1) =>
                match skip_ws r1 with
                | [] => Raise JSONDecodeError
                | col :: r2 =>
                    if col =? 58 then
                      match scan_once lim n' depth (skip_ws r2) with
                      | Raise e => Raise e
                      | Ok (v, r3) =>
                          let acc' := dict_set k v acc in
                          match skip_ws r3 with
                          | [] => Raise JSONDecodeError
                          | d :: r4 =>
                              if d =? 125 then Ok (JObject acc', r4)
                              else if d =? 44
                                   then parse_members lim n' depth
                                          (skip_ws r4) acc'
                                   else Raise JSONDecodeError
                          end
                      end
                    else Raise JSONDecodeError
                end
            end
          else Raise JSONDecodeError
      end
  end

with parse_elems (lim : Limits) (n depth : nat) (s : str) (acc : list json)
  {struct n} : Result (json * str) :=
  match n with
  | O => Raise JSONDecodeError
  | S n' =>
      match scan_once lim n' depth s with
      | Raise e => Raise e
      | Ok (v, r1) =>
          match skip_ws r1 with
          | [] => Raise JSONDecodeError
          | d :: r2 =>
              if d =? 93 then Ok (JArray (rev (v :: acc)), r2)
              else if d =? 44
                   then parse_elems lim n' depth (skip_ws r2) (v :: acc)
                   else Raise JSONDecodeError
          end
      end
  end.

(** The fuel [loads] gives to the scan of a text: twice its length, and
    two. *)
Definition fuel_for (s : str) : nat :=
  S (S (List.length s + List.length s)).

(** [json.loads(s)] for a [str], under the limits of the interpreter: the
    value, or the exception raised ([json.JSONDecodeError],
    [RecursionError], [ValueError]). *)
Definition loads (lim : Limits) (s : str) : Result json :=
  if startswith s [65279] then Raise JSONDecodeError
  else
    match scan_once lim (fuel_for s) (json_max_depth lim) (skip_ws s) with
    | Ok (v, r) =>
        match skip_ws r with
        | [] => Ok v
        | _ :: _ => Raise JSONDecodeError
        end
    | Raise e => Raise e
    end.

End Json.
Export Json.

(** ** The models of [schemas.py] and [config.py] *)

Record MCPConfig := {
  imi_binary_path : str;
  timeout_seconds : Z
}.

(** [CLIResult]: [success: bool], [data: Optional[Dict[str, Any]]],
    [error], [stdout], [stderr: Optional[str]], [exit_code: int]. *)
Record CLIResult := {
  success : bool;
  data : option dict;
  error : option str;
  stdout : option str;
  stderr : option str;
  exit_code : Z
}.

(** [WorktreeResult]: [success], [message], [data], [error]. *)
Record WorktreeResult := {
  wr_success : bool;
  wr_message : str;
  wr_data : option dict;
  wr_error : option str
}.

(** *** Validation of the fields of a [CLIResult] (pydantic 2, lax mode) *)

Module Pydantic.

Definition ascii_lower (c : Z) : Z :=
  if (65 <=? c) && (c <=? 90) then c + 32 else c.

Definition eq_ignore_case (s : str) (w : string) : bool :=
  str_eqb (map ascii_lower s) (lit w).

(** A string accepted as a boolean. *)
Definition str_as_bool (s : str) : option bool :=
  if str_eqb s (lit "0") || eq_ignore_case s "f" || eq_ignore_case s "n"
     || eq_ignore_case s "no" || eq_ignore_case s "off"
     || eq_ignore_case s "false"
  then Some false
  else if str_eqb s (lit "1") || eq_ignore_case s "t" || eq_ignore_case s "y"
          || eq_ignore_case s "on" || eq_ignore_case s "yes"
          || eq_ignore_case s "true"
  then Some true
  else None.

Definition int_as_bool (n : Z) : option bool :=
  if n =? 0 then Some false else if n =? 1 then Some true else None.

(** A float accepted as a boolean: one that is [0.0], [-0.0] or [1.0].
    The decimal literal [d * 10^e] reads as a zero when its magnitude is at
    most [2^-1075], and as [1.0] when it lies between [1 - 2^-54] and
    [1 + 2^-53] (the literal is rounded to the nearest double, ties to
    even). *)
Definition float_as_bool (f : pyfloat) : option bool :=
  match f with
  | FNaN => None
  | FInf _ => None
  | FDec neg d e =>
      if 0 <=? e then
        if d * 10 ^ e =? 0 then Some false
        else if negb neg && (d * 10 ^ e =? 1) then Some true
        else None
      else
        let k := 10 ^ (- e) in
        if d * 2 ^ 1075 <=? k then Some false
        else if negb neg && ((2 ^ 54 - 1) * k <=? d * 2 ^ 54)
                && (d * 2 ^ 53 <=? (2 ^ 53 + 1) * k)
        then Some true
        else None
  end.

Definition of_option {A : Type} (o : option A) : Result A :=
  match o with
  | Some a => Ok a
  | None => Raise ValidationError
  end.

(** [success: bool] *)
Definition validate_bool (v : json) : Result bool :=
  match v with
  | JBool b => Ok b
  | JString s => of_option (str_as_bool s)
  | JInt n => of_option (int_as_bool n)
  | JFloat f => of_option (float_as_bool f)
  | _ => Raise ValidationError
  end.

(** [data: Optional[Dict[str, Any]]] *)
Definition validate_opt_dict (v : json) : Result (option dict) :=
  match v with
  | JNull => Ok None
  | JObject d => Ok (Some d)
  | _ => Raise ValidationError
  end.

(** [error: Optional[str]] *)
Definition validate_opt_str (v : json) : Result (option str) :=
  match v with
  | JNull => Ok None
  | JString s => Ok (Some s)
  | _ => Raise ValidationError
  end.

End Pydantic.
Export Pydantic.

(** ** The host *)

(** What [asyncio.wait_for(process.communicate(), timeout)] does: the
    child ends in time and its output and exit status are returned, or the
    timeout elapses first ([asyncio.TimeoutError]; the output read so far
    stays with the cancelled call), or the wait raises. *)
Inductive Communicate :=
| Completed (out err : bytes) (returncode : Z)
| TimedOut (partial_out partial_err : bytes)
| CommRaises (e : exn).

(** What [asyncio.create_subprocess_exec] does: a child whose wait depends
    on the timeout given, or an exception. *)
Inductive Spawn :=
| Spawned (wait : Z -> Communicate)
| SpawnRaises (e : exn).

Record Host := {
  shutil_which : str -> option str;
  create_subprocess_exec : list str -> Spawn;
  limits : Limits
}.

(** The calls on the executable lookup and on the process API. The source
    makes the first three; [Kill], [Terminate] and [Wait] are the calls
    [process.kill()], [process.terminate()] and [process.wait()]. *)
Inductive Call :=
| Which (cmd : str)
| Exec (argv : list str)
| WaitFor (timeout : Z)
| Kill
| Terminate
| Wait.

(** ** [cli_wrapper.py] *)

Module CliWrapper.

(** [json.loads(s)] as a computation. *)
Definition json_loads (lim : Limits) (s : str) : Result json := loads lim s.

(** ["success" in parsed]. [parsed] comes from a text that starts with a
    brace, so it is a [dict] ([loads_brace_object] below); on a value that
    is not a container the operator raises [TypeError]. *)
Definition has_success (parsed : json) : Result bool :=
  match parsed with
  | JObject d => Ok (dict_mem (lit "success") d)
  | _ => Raise TypeError
  end.

(** The loop of lines 63-71 over [reversed(lines)]: the stripped text of
    the first line that starts with a brace, decodes, and has the key
    [success]. A line that does not decode is skipped ([continue]); any
    other exception of [json.loads] leaves the loop. *)
Fixpoint find_json_line (lim : Limits) (rlines : list str)
  : Result (option str) :=
  match rlines with
  | [] => Ok None
  | line :: rest =>
      if startswith (strip line) (lit "{") then
        match json_loads lim (strip line) with
        | Ok parsed =>
            found <- has_success parsed ;;
            if found then Ok (Some (strip line)) else find_json_line lim rest
        | Raise JSONDecodeError => find_json_line lim rest
        | Raise e => Raise e
        end
      else find_json_line lim rest
  end.

(** [data.get(k, default)] on the decoded line. *)
Definition py_get (v : json) (k : string) (default : json) : Result json :=
  match v with
  | JObject d => Ok (dict_get (lit k) default d)
  | _ => Raise AttributeError
  end.

(** [CLIResult(success=.., data=.., error=.., stdout=.., exit_code=..)] on
    values taken from the decoded line: the model validates them. *)
Definition CLIResult_of_json (s d e : json) (out : str) (code : Z)
  : Result CLIResult :=
  match validate_bool s, validate_opt_dict d, validate_opt_str e with
  | Ok s', Ok d', Ok e' =>
      Ok {| success := s'; data := d'; error := e';
            stdout := Some out; stderr := None; exit_code := code |}
  | _, _, _ => Raise ValidationError
  end.

(** Lines 57-98: the branch of exit status zero, with its handler of
    [json.JSONDecodeError]. *)
Definition parse_success (lim : Limits) (stdout_str stderr_str : str)
    (returncode : Z) : Result CLIResult :=
  let body :=
    let lines := split_nl stdout_str in
    json_line <- find_json_line lim (rev lines) ;;
    match json_line with
    | Some jl =>
        if truthy jl then
          parsed <- json_loads lim jl ;;
          s <- py_get parsed "success" (JBool true) ;;
          d <- py_get parsed "data" JNull ;;
          e <- py_get parsed "error" JNull ;;
          CLIResult_of_json s d e stdout_str returncode
        else
          Ok {| success := true; data := None; error := None;
                stdout := Some stdout_str; stderr := Some stderr_str;
                exit_code := returncode |}
    | None =>
        Ok {| success := true; data := None; error := None;
              stdout := Some stdout_str; stderr := Some stderr_str;
              exit_code := returncode |}
    end in
  match body with
  | Raise JSONDecodeError =>
      Ok {| success := false; data := None;
            error := Some (lit "Failed to parse JSON output: "
                           ++ str_exn JSONDecodeError);
            stdout := Some stdout_str; stderr := Some stderr_str;
            exit_code := returncode |}
  | r => r
  end.

(** Lines 99-108: the branch of a non-zero exit status. *)
Definition command_failed (stdout_str stderr_str : str) (returncode : Z)
  : CLIResult :=
  let error_msg := if truthy stderr_str then stderr_str else stdout_str in
  {| success := false; data := None;
     error := Some (if truthy error_msg then error_msg
                    else lit "Command failed with exit code "
                         ++ str_of_int returncode);
     stdout := Some stdout_str; stderr := Some stderr_str;
     exit_code := returncode |}.

(** [b.decode("utf-8")] as a computation. *)
Definition decode_utf8 (b : bytes) : Result str :=
  match decode b with
  | Some s => Ok s
  | None => Raise UnicodeDecodeError
  end.

(** Lines 52-108: from the captured output to the result. *)
Definition parse_output (lim : Limits) (out err : bytes) (returncode : Z)
  : Result CLIResult :=
  o <- decode_utf8 out ;;
  e <- decode_utf8 err ;;
  let stdout_str := strip o in
  let stderr_str := strip e in
  if returncode =? 0 then parse_success lim stdout_str stderr_str returncode
  else Ok (command_failed stdout_str stderr_str returncode).

(** Lines 41-108: the body of the outer [try], with the calls it makes. *)
Definition run_process (cmd_args : list str) (config : MCPConfig) (h : Host)
  : list Call * Result CLIResult :=
  match create_subprocess_exec h cmd_args with
  | SpawnRaises e => ([Exec cmd_args], Raise e)
  | Spawned wait =>
      let calls := [Exec cmd_args; WaitFor (timeout_seconds config)] in
      match wait (timeout_seconds config) with
      | Completed out err returncode =>
          (calls, parse_output (limits h) out err returncode)
      | TimedOut _ _ => (calls, Raise TimeoutError)
      | CommRaises e => (calls, Raise e)
      end
  end.

(** The result of lines 29-34. *)
Definition not_found (config : MCPConfig) : CLIResult :=
  {| success := false; data := None;
     error := Some (lit "iMi binary not found: " ++ imi_binary_path config
                    ++ lit ". " ++ lit "Ensure iMi is installed and in PATH.");
     stdout := None; stderr := None; exit_code := 127 |}.

(** The result of lines 110-115. *)
Definition timed_out (config : MCPConfig) : CLIResult :=
  {| success := false; data := None;
     error := Some (lit "Command timed out after "
                    ++ str_of_int (timeout_seconds config) ++ lit " seconds");
     stdout := None; stderr := None; exit_code := 124 |}.

(** The result of lines 117-120. *)
Definition unexpected (e : exn) : CLIResult :=
  {| success := false; data := None;
     error := Some (lit "Unexpected error: " ++ str_exn e);
     stdout := None; stderr := None; exit_code := 1 |}.

(** Lines 110-120: the handlers of the outer [try]. *)
Definition handlers (config : MCPConfig) (r : Result CLIResult)
  : Result CLIResult :=
  match r with
  | Ok res => Ok res
  | Raise TimeoutError => Ok (timed_out config)
  | Raise e => Ok (unexpected e)
  end.

(** [run_imi_command(args, config)]: the calls made and the value
    returned (or the exception that leaves the function). *)
Definition run_imi_command (args : list str) (config : MCPConfig) (h : Host)
  : list Call * Result CLIResult :=
  let looked := Which (imi_binary_path config) in
  match shutil_which h (imi_binary_path config) with
  | None => ([looked], Ok (not_found config))
  | Some imi_binary =>
      if truthy imi_binary then
        let cmd_args := imi_binary :: lit "--json" :: args in
        let (calls, r) := run_process cmd_args config h in
        (looked :: calls, handlers config r)
      else ([looked], Ok (not_found config))
  end.

End CliWrapper.
Export CliWrapper.

(** ** [tools.py]: [create_worktree] *)

Module Tools.

(** [get_config()] on the module's [_config]. *)
Definition get_config (_config : option MCPConfig) : Result MCPConfig :=
  match _config with
  | None =>
      Raise (RuntimeError
               (lit "Config not initialized. Call set_config() first."))
  | Some c => Ok c
  end.

(** Truthiness of [result.data]: a non-empty [dict]. *)
Definition data_truthy (d : option dict) : bool :=
  match d with
  | Some (_ :: _) => true
  | _ => false
  end.

(** [x or default] on an optional string. *)
Definition str_or (x : option str) (default : str) : str :=
  match x with
  | Some s => if truthy s then s else default
  | None => default
  end.

(** Lines 65-67: the arguments of the command. *)
Definition create_worktree_args (name worktree_type : str)
    (repo : option str) : list str :=
  [lit "add"; worktree_type; name]
  ++ match repo with
     | Some r => if truthy r then [lit "--repo"; r] else []
     | None => []
     end.

(** Lines 71-82: from the result of the command to the result of the
    tool. *)
Definition worktree_result (name : str) (result : CLIResult)
  : WorktreeResult :=
  if success result && data_truthy (data result) then
    {| wr_success := true;
       wr_message := lit "Worktree '" ++ name ++ lit "' created successfully";
       wr_data := data result;
       wr_error := None |}
  else
    {| wr_success := false;
       wr_message := lit "Failed to create worktree '" ++ name ++ lit "'";
       wr_data := None;
       wr_error := Some (str_or (error result) (lit "Unknown error")) |}.

Definition create_worktree (_config : option MCPConfig) (h : Host)
    (name worktree_type : str) (repo : option str)
  : list Call * Result WorktreeResult :=
  match get_config _config with
  | Raise e => ([], Raise e)
  | Ok config =>
      let args := create_worktree_args name worktree_type repo in
      let (calls, res) := run_imi_command args config h in
      (calls, result <- res ;; Ok (worktree_result name result))
  end.

End Tools.
Export Tools.


(** ** The vocabulary of the properties *)

Module Spec.

(** A line qualifies when its trimmed text starts with a brace, decodes as
    an object, and the object has a field named [success]. *)
Definition qualifies_text (lim : Limits) (t : str) : bool :=
  startswith t (lit "{")
  && match loads lim t with
     | Ok (JObject d) => dict_mem (lit "success") d
     | _ => false
     end.

Definition qualifies (lim : Limits) (line : str) : bool :=
  qualifies_text lim (strip line).

(** The exception that ends the scan at a line: its trimmed text starts
    with a brace and [json.loads] raises on it something that is not a
    decode error (the nesting is too deep for the interpreter, or an
    integer has too many digits). *)
Definition aborts_text (lim : Limits) (t : str) : option exn :=
  if startswith t (lit "{") then
    match loads lim t with
    | Ok _ => None
    | Raise JSONDecodeError => None
    | Raise e => Some e
    end
  else None.

Definition aborts (lim : Limits) (line : str) : option exn :=
  aborts_text lim (strip line).

(** The scan passes over a line: it neither qualifies nor ends the scan. *)
Definition passed_over_text (lim : Limits) (t : str) : bool :=
  negb (qualifies_text lim t)
  && match aborts_text lim t with None => true | Some _ => false end.

Definition passed_over (lim : Limits) (line : str) : bool :=
  passed_over_text lim (strip line).

(** The answer of the scan from the first line it does not pass over. *)
Definition verdict_text (lim : Limits) (found : option str)
  : Result (option str) :=
  match found with
  | None => Ok None
  | Some t =>
      if qualifies_text lim t then Ok (Some t)
      else match aborts_text lim t with
           | Some e => Raise e
           | None => Ok None
           end
  end.

(** [line] is the first qualifying line of [lines] met from the end, and
    the scan reaches it: the lines after it are passed over. *)
Definition last_qualifying (lim : Limits) (lines : list str) (line : str)
  : Prop :=
  exists pre post,
    lines = pre ++ line :: post
    /\ qualifies lim line = true
    /\ forall l, In l post -> passed_over lim l = true.

(** The selected line in the words of the specification: the first line
    met from the end that qualifies. *)
Definition selected_as_stated (lim : Limits) (lines : list str) (line : str)
  : Prop :=
  exists pre post,
    lines = pre ++ line :: post
    /\ qualifies lim line = true
    /\ forall l, In l post -> qualifies lim l = false.

(** The scan ends at a line on which [json.loads] raises [e]: the lines
    after it are passed over. *)
Definition scan_aborts (lim : Limits) (lines : list str) (e : exn) : Prop :=
  exists pre line post,
    lines = pre ++ line :: post
    /\ aborts lim line = Some e
    /\ forall l, In l post -> passed_over lim l = true.

(** The executable resolves to [imi_binary]. *)
Definition resolves (config : MCPConfig) (h : Host) (imi_binary : str) : Prop :=
  shutil_which h (imi_binary_path config) = Some imi_binary
  /\ truthy imi_binary = true.

(** The child is created and its wait behaves as [wait]. *)
Definition spawns (args : list str) (config : MCPConfig) (h : Host)
    (wait : Z -> Communicate) : Prop :=
  exists imi_binary,
    resolves config h imi_binary
    /\ create_subprocess_exec h (imi_binary :: lit "--json" :: args)
       = Spawned wait.

(** An execution: the child ends within the configured timeout with the
    captured bytes [out], [err] and the exit status [rc]. *)
Definition completes (args : list str) (config : MCPConfig) (h : Host)
    (out err : bytes) (rc : Z) : Prop :=
  exists wait,
    spawns args config h wait
    /\ wait (timeout_seconds config) = Completed out err rc.

(** The child has not ended when the configured timeout elapses. *)
Definition exceeds_timeout (args : list str) (config : MCPConfig) (h : Host)
  : Prop :=
  exists wait partial_out partial_err,
    spawns args config h wait
    /\ wait (timeout_seconds config) = TimedOut partial_out partial_err.

(** The invariant of the data model: no message on success, a non-empty
    message on failure. *)
Definition invariant (r : CLIResult) : Prop :=
  (success r = true -> error r = None)
  /\ (success r = false -> exists m, error r = Some m /\ m <> []).

(** A well-formed failure: [success] false, no data, an exit code that is
    not zero, and the invariant (so a message that is not empty). *)
Definition well_formed_failure (r : CLIResult) : Prop :=
  success r = false /\ data r = None /\ exit_code r <> 0 /\ invariant r.

(** The error taxonomy. *)
Inductive ErrorClass :=
| ExecutableNotFound
| Timeout
| ProcessSpawnFailure
| NonZeroExit
| OutputDecodeFailure.

Inductive occurs (args : list str) (config : MCPConfig) (h : Host)
  : ErrorClass -> Prop :=
| occurs_not_found :
    shutil_which h (imi_binary_path config) = None ->
    occurs args config h ExecutableNotFound
| occurs_timeout :
    exceeds_timeout args config h ->
    occurs args config h Timeout
| occurs_spawn_failure imi_binary e :
    resolves config h imi_binary ->
    create_subprocess_exec h (imi_binary :: lit "--json" :: args)
    = SpawnRaises e ->
    occurs args config h ProcessSpawnFailure
| occurs_non_zero out err rc :
    completes args config h out err rc -> rc <> 0 ->
    occurs args config h NonZeroExit
| occurs_decode_failure out err rc :
    completes args config h out err rc ->
    decode out = None \/ decode err = None ->
    occurs args config h OutputDecodeFailure
| occurs_decoder_failure out err o e x :
    completes args config h out err 0 ->
    decode out = Some o -> decode err = Some e ->
    scan_aborts (limits h) (split_nl o) x ->
    occurs args config h OutputDecodeFailure.

(** *** The child of a run

    What the calls on the process API do to the child. A child is alive
    from its creation. [communicate()] returns when the child has ended
    and has been waited for: its handle is then reclaimed. A wait that
    times out or raises leaves the child as it is. [kill()] and
    [terminate()] end the child; its handle is reclaimed by the [wait()]
    that follows. *)
Inductive Child :=
| NoChild
| Alive (wait : Z -> Communicate)
| Signalled
| Reclaimed.

Definition child_step (h : Host) (c : Child) (call : Call) : Child :=
  match call, c with
  | Exec argv, NoChild =>
      match create_subprocess_exec h argv with
      | Spawned wait => Alive wait
      | SpawnRaises _ => NoChild
      end
  | WaitFor timeout, Alive wait =>
      match wait timeout with
      | Completed _ _ _ => Reclaimed
      | _ => Alive wait
      end
  | Kill, Alive _ => Signalled
  | Terminate, Alive _ => Signalled
  | Wait, Signalled => Reclaimed
  | _, _ => c
  end.

(** The child when [run_imi_command] returns. *)
Definition child_after (args : list str) (config : MCPConfig) (h : Host)
  : Child :=
  fold_left (child_step h) (fst (run_imi_command args config h)) NoChild.


(** The limits of an interpreter with its defaults. *)
Definition sample_limits : Limits :=
  {| int_max_str_digits := 4300; json_max_depth := 1000 |}.

(** A host for concrete runs: the binary resolves and the child ends in
    time with the given output and exit status. *)
Definition sample_config : MCPConfig :=
  {| imi_binary_path := lit "imi"; timeout_seconds := 30 |}.

Definition sample_host (out err : bytes) (rc : Z) : Host :=
  {| shutil_which := fun _ => Some (lit "/usr/bin/imi");
     create_subprocess_exec := fun _ => Spawned (fun _ => Completed out err rc);
     limits := sample_limits |}.

(** Sample outputs: a banner, a line that starts with a brace and does
    not decode, the structured line, a trailing line. *)
Definition banner_stdout : bytes := qlit "Cloning...
{broken
{'success': true, 'data': {'path': '/x'}}
Done.
".

Definition structured_line : str :=
  qlit "{'success': true, 'data': {'path': '/x'}}".

(** Two lines that [json.loads] does not decode and does not reject as
    malformed: an object nested deeper than the interpreter allows, and an
    object with an integer of 4301 digits. *)
Definition deep_line : str :=
  qlit "{'a': " ++ repeat 91 1000 ++ repeat 93 1000 ++ lit "}".

Definition long_int_line : str :=
  qlit "{'n': " ++ repeat 49 4301 ++ lit "}".

(** A host whose child never ends in time. *)
Definition hanging_host (partial_out partial_err : bytes) : Host :=
  {| shutil_which := fun _ => Some (lit "/usr/bin/imi");
     create_subprocess_exec :=
       fun _ => Spawned (fun _ => TimedOut partial_out partial_err);
     limits := sample_limits |}.

(** A host without the binary; it would start a child if asked to. *)
Definition bare_host : Host :=
  {| shutil_which := fun _ => None;
     create_subprocess_exec := fun _ => Spawned (fun _ => Completed [] [] 0);
     limits := sample_limits |}.

(** *** Statements of the specification that the code does not meet

    Each is the sentence as the specification words it; the properties
    below refute it on a sample and prove the statement the code meets. *)

(** Extraction: the selected line decides the result, with exit code
    zero. *)
Definition extraction_as_stated : Prop :=
  forall args config h out err o line d,
    completes args config h out err 0 ->
    decode out = Some o ->
    selected_as_stated (limits h) (split_nl o) line ->
    loads (limits h) (strip line) = Ok (JObject d) ->
    exists r,
      snd (run_imi_command args config h) = Ok r
      /\ exit_code r = 0
      /\ (forall b, dict_get (lit "success") (JBool true) d = JBool b ->
          success r = b)
      /\ (forall v, dict_lookup (lit "data") d = Some (JObject v) ->
          data r = Some v)
      /\ (forall m, dict_lookup (lit "error") d = Some (JString m) ->
          error r = Some m).

(** The invariant holds of every result. *)
Definition invariant_as_stated : Prop :=
  forall args config h r,
    snd (run_imi_command args config h) = Ok r -> invariant r.

(** Success without a structured line: the output is kept verbatim. *)
Definition plain_success_as_stated : Prop :=
  forall args config h out err o e,
    completes args config h out err 0 ->
    decode out = Some o -> decode err = Some e ->
    (forall l, In l (split_nl o) -> qualifies (limits h) l = false) ->
    exists r,
      snd (run_imi_command args config h) = Ok r
      /\ success r = true /\ data r = None /\ exit_code r = 0
      /\ stdout r = Some o /\ stderr r = Some e.

(** Failure: the exit status is copied and the message is the captured
    stderr, else the captured stdout, else the generated text. *)
Definition failure_as_stated : Prop :=
  forall args config h out err rc,
    completes args config h out err rc -> rc <> 0 ->
    exists r,
      snd (run_imi_command args config h) = Ok r
      /\ success r = false /\ exit_code r = rc
      /\ (forall o e, decode out = Some o -> decode err = Some e ->
          error r = Some (if truthy e then e
                          else if truthy o then o
                          else lit "Command failed with exit code "
                               ++ str_of_int rc)).

(** Every input gives a well-formed result: a result that meets the
    invariant of the data model. *)
Definition well_formed_as_stated : Prop :=
  forall args config h,
    exists r, snd (run_imi_command args config h) = Ok r /\ invariant r.


(** The captured stderr, when not empty, is in the result. *)
Definition stderr_retained_as_stated : Prop :=
  forall args config h out err rc e,
    completes args config h out err rc ->
    decode err = Some e -> truthy e = true ->
    exists r,
      snd (run_imi_command args config h) = Ok r /\ stderr r = Some e.

End Spec.
Export Spec.

(** ** [tools.py]: the other tools *)

Module AllTools.

(** [set_config(config)]: the assignment to the module's [_config]. *)
Definition set_config (config : MCPConfig) (_config : option MCPConfig)
  : option MCPConfig :=
  Some config.

(** The value of [_config] when the module is loaded (line 22). *)
Definition initial_config : option MCPConfig := None.

(** [if x: args.extend([flag, x])] on an optional string. *)
Definition extend_opt (flag : string) (x : option str) : list str :=
  match x with
  | Some s => if truthy s then [lit flag; s] else []
  | None => []
  end.

(** [if x: args.append(x)] on an optional string. *)
Definition append_opt (x : option str) : list str :=
  match x with
  | Some s => if truthy s then [s] else []
  | None => []
  end.

(** [if b: args.append(flag)] *)
Definition append_flag (b : bool) (flag : string) : list str :=
  if b then [lit flag] else [].

(** The body shared by the tools: [get_config()], the command, and the
    result of the tool built from the result of the command. *)
Definition run_tool (_config : option MCPConfig) (h : Host)
    (args : list str) (build : CLIResult -> WorktreeResult)
  : list Call * Result WorktreeResult :=
  match get_config _config with
  | Raise e => ([], Raise e)
  | Ok config =>
      let (calls, res) := run_imi_command args config h in
      (calls, result <- res ;; Ok (build result))
  end.

(** [if result.success and result.data: ... else: ...] with the two
    messages of the tool. *)
Definition strict_result (ok_message fail_message : str)
    (result : CLIResult) : WorktreeResult :=
  if success result && data_truthy (data result) then
    {| wr_success := true; wr_message := ok_message;
       wr_data := data result; wr_error := None |}
  else
    {| wr_success := false; wr_message := fail_message;
       wr_data := None;
       wr_error := Some (str_or (error result) (lit "Unknown error")) |}.

(** [{"output": result.stdout}] *)
Definition output_dict (out : option str) : dict :=
  [(lit "output", match out with Some s => JString s | None => JNull end)].

(** [result.data or {"output": result.stdout}] *)
Definition data_or_output (result : CLIResult) : dict :=
  match data result with
  | Some (kv :: d) => kv :: d
  | _ => output_dict (stdout result)
  end.

(** [if result.success: ... else: ...] of [list_worktrees] and
    [show_status]. *)
Definition lenient_result (ok_message fail_message : str)
    (result : CLIResult) : WorktreeResult :=
  if success result then
    {| wr_success := true; wr_message := ok_message;
       wr_data := Some (data_or_output result); wr_error := None |}
  else
    {| wr_success := false; wr_message := fail_message;
       wr_data := None;
       wr_error := Some (str_or (error result) (lit "Unknown error")) |}.

(** Lines 84-119. [number] is [str(pr_number)]: the call at line 102 is
    outside any [try], so its [ValueError] on a number of too many digits
    leaves the tool, after [get_config()] and before the command. *)
Definition create_review_worktree_args (number : str) (repo : option str)
  : list str :=
  [lit "review"; number] ++ append_opt repo.

Definition create_review_worktree (_config : option MCPConfig) (h : Host)
    (pr_number : Z) (repo : option str)
  : list Call * Result WorktreeResult :=
  match get_config _config with
  | Raise e => ([], Raise e)
  | Ok _ =>
      match py_str_int (limits h) pr_number with
      | Raise e => ([], Raise e)
      | Ok number =>
          run_tool _config h (create_review_worktree_args number repo)
            (strict_result
               (lit "Review worktree for PR #" ++ number
                ++ lit " created successfully")
               (lit "Failed to create review worktree for PR #" ++ number))
      end
  end.

(** Lines 121-162. *)
Definition list_worktrees_args (repo : option str)
    (worktrees_only projects_only : bool) : list str :=
  [lit "list"] ++ extend_opt "--repo" repo
  ++ append_flag worktrees_only "--worktrees"
  ++ append_flag projects_only "--projects".

Definition list_worktrees (_config : option MCPConfig) (h : Host)
    (repo : option str) (worktrees_only projects_only : bool) :=
  run_tool _config h (list_worktrees_args repo worktrees_only projects_only)
    (lenient_result (lit "Worktrees listed successfully")
       (lit "Failed to list worktrees")).

(** Lines 164-194. *)
Definition show_status_args (repo : option str) : list str :=
  [lit "status"] ++ extend_opt "--repo" repo.

Definition show_status (_config : option MCPConfig) (h : Host)
    (repo : option str) :=
  run_tool _config h (show_status_args repo)
    (lenient_result (lit "Status retrieved successfully")
       (lit "Failed to retrieve status")).

(** Lines 196-247. *)
Definition create_project_args (concept prd name payload : option str)
  : list str :=
  [lit "project"; lit "create"]
  ++ extend_opt "--concept" concept ++ extend_opt "--prd" prd
  ++ extend_opt "--name" name ++ extend_opt "--payload" payload.

Definition create_project (_config : option MCPConfig) (h : Host)
    (concept prd name payload : option str) :=
  run_tool _config h (create_project_args concept prd name payload)
    (strict_result (lit "Project created successfully")
       (lit "Failed to create project")).

(** Lines 249-286. *)
Definition navigate_worktree_args (query repo : option str) : list str :=
  [lit "go"] ++ append_opt query ++ extend_opt "--repo" repo.

Definition navigate_worktree (_config : option MCPConfig) (h : Host)
    (query repo : option str) :=
  run_tool _config h (navigate_worktree_args query repo)
    (strict_result (lit "Worktree located successfully")
       (lit "Failed to locate worktree")).

(** Lines 288-330. *)
Definition remove_worktree_args (name : str) (repo : option str)
    (keep_branch keep_remote : bool) : list str :=
  [lit "remove"; name] ++ extend_opt "--repo" repo
  ++ append_flag keep_branch "--keep-branch"
  ++ append_flag keep_remote "--keep-remote".

Definition remove_worktree (_config : option MCPConfig) (h : Host)
    (name : str) (repo : option str) (keep_branch keep_remote : bool) :=
  run_tool _config h (remove_worktree_args name repo keep_branch keep_remote)
    (strict_result
       (lit "Worktree '" ++ name ++ lit "' removed successfully")
       (lit "Failed to remove worktree '" ++ name ++ lit "'")).

(** Lines 332-363. *)
Definition sync_worktrees_args (repo : option str) : list str :=
  [lit "sync"] ++ extend_opt "--repo" repo.

Definition sync_worktrees (_config : option MCPConfig) (h : Host)
    (repo : option str) :=
  run_tool _config h (sync_worktrees_args repo)
    (strict_result (lit "Worktrees synced successfully")
       (lit "Failed to sync worktrees")).

(** Lines 365-401. *)
Definition prune_worktrees_args (repo : option str) (dry_run : bool)
  : list str :=
  [lit "prune"] ++ extend_opt "--repo" repo ++ append_flag dry_run "--dry-run".

Definition prune_worktrees (_config : option MCPConfig) (h : Host)
    (repo : option str) (dry_run : bool) :=
  run_tool _config h (prune_worktrees_args repo dry_run)
    (strict_result (lit "Prune completed successfully")
       (lit "Failed to prune worktrees")).

(** Lines 403-429. *)
Definition list_types_args : list str := [lit "types"; lit "list"].

Definition list_types (_config : option MCPConfig) (h : Host) :=
  run_tool _config h list_types_args
    (strict_result (lit "Worktree types listed successfully")
       (lit "Failed to list worktree types")).

(** A call of one of the tools that [register_tools] registers, with its
    arguments. *)
Inductive ToolCall :=
| CreateWorktree (name worktree_type : str) (repo : option str)
| CreateReviewWorktree (pr_number : Z) (repo : option str)
| ListWorktrees (repo : option str) (worktrees_only projects_only : bool)
| ShowStatus (repo : option str)
| CreateProject (concept prd name payload : option str)
| NavigateWorktree (query repo : option str)
| RemoveWorktree (name : str) (repo : option str)
    (keep_branch keep_remote : bool)
| SyncWorktrees (repo : option str)
| PruneWorktrees (repo : option str) (dry_run : bool)
| ListTypes.

Definition call_tool (_config : option MCPConfig) (h : Host) (t : ToolCall)
  : list Call * Result WorktreeResult :=
  match t with
  | CreateWorktree name worktree_type repo =>
      create_worktree _config h name worktree_type repo
  | CreateReviewWorktree pr_number repo =>
      create_review_worktree _config h pr_number repo
  | ListWorktrees repo worktrees_only projects_only =>
      list_worktrees _config h repo worktrees_only projects_only
  | ShowStatus repo => show_status _config h repo
  | CreateProject concept prd name payload =>
      create_project _config h concept prd name payload
  | NavigateWorktree query repo => navigate_worktree _config h query repo
  | RemoveWorktree name repo keep_branch keep_remote =>
      remove_worktree _config h name repo keep_branch keep_remote
  | SyncWorktrees repo => sync_worktrees _config h repo
  | PruneWorktrees repo dry_run => prune_worktrees _config h repo dry_run
  | ListTypes => list_types _config h
  end.

End AllTools.
Export AllTools.

(** ** The vocabulary of the properties of the tools *)

Module ToolSpec.

(** The arguments of the call can be written out: the number of a pull
    request has no more digits than [str()] accepts. The other tools
    print no number. *)
Definition printable (lim : Limits) (t : ToolCall) : bool :=
  match t with
  | CreateReviewWorktree pr_number _ =>
      negb (too_many_digits lim (List.length (str_of_int (Z.abs pr_number))))
  | _ => true
  end.

(** The arguments a tool gives to the command. *)
Definition tool_args (t : ToolCall) : list str :=
  match t with
  | CreateWorktree name worktree_type repo =>
      create_worktree_args name worktree_type repo
  | CreateReviewWorktree pr_number repo =>
      create_review_worktree_args (str_of_int pr_number) repo
  | ListWorktrees repo worktrees_only projects_only =>
      list_worktrees_args repo worktrees_only projects_only
  | ShowStatus repo => show_status_args repo
  | CreateProject concept prd name payload =>
      create_project_args concept prd name payload
  | NavigateWorktree query repo => navigate_worktree_args query repo
  | RemoveWorktree name repo keep_branch keep_remote =>
      remove_worktree_args name repo keep_branch keep_remote
  | SyncWorktrees repo => sync_worktrees_args repo
  | PruneWorktrees repo dry_run => prune_worktrees_args repo dry_run
  | ListTypes => list_types_args
  end.

(** The tools that report a success for any successful command; the
    others also ask for data. *)
Definition lenient (t : ToolCall) : bool :=
  match t with
  | ListWorktrees _ _ _ | ShowStatus _ => true
  | _ => false
  end.

(** The message of a tool on success. *)
Definition ok_message (t : ToolCall) : str :=
  match t with
  | CreateWorktree name _ _ =>
      lit "Worktree '" ++ name ++ lit "' created successfully"
  | CreateReviewWorktree pr_number _ =>
      lit "Review worktree for PR #" ++ str_of_int pr_number
      ++ lit " created successfully"
  | ListWorktrees _ _ _ => lit "Worktrees listed successfully"
  | ShowStatus _ => lit "Status retrieved successfully"
  | CreateProject _ _ _ _ => lit "Project created successfully"
  | NavigateWorktree _ _ => lit "Worktree located successfully"
  | RemoveWorktree name _ _ _ =>
      lit "Worktree '" ++ name ++ lit "' removed successfully"
  | SyncWorktrees _ => lit "Worktrees synced successfully"
  | PruneWorktrees _ _ => lit "Prune completed successfully"
  | ListTypes => lit "Worktree types listed successfully"
  end.

(** The message of a tool on failure. *)
Definition fail_message (t : ToolCall) : str :=
  match t with
  | CreateWorktree name _ _ =>
      lit "Failed to create worktree '" ++ name ++ lit "'"
  | CreateReviewWorktree pr_number _ =>
      lit "Failed to create review worktree for PR #"
      ++ str_of_int pr_number
  | ListWorktrees _ _ _ => lit "Failed to list worktrees"
  | ShowStatus _ => lit "Failed to retrieve status"
  | CreateProject _ _ _ _ => lit "Failed to create project"
  | NavigateWorktree _ _ => lit "Failed to locate worktree"
  | RemoveWorktree name _ _ _ =>
      lit "Failed to remove worktree '" ++ name ++ lit "'"
  | SyncWorktrees _ => lit "Failed to sync worktrees"
  | PruneWorktrees _ _ => lit "Failed to prune worktrees"
  | ListTypes => lit "Failed to list worktree types"
  end.

(** The result of a tool from the result of the command. *)
Definition tool_result (t : ToolCall) (result : CLIResult) : WorktreeResult :=
  if lenient t then lenient_result (ok_message t) (fail_message t) result
  else strict_result (ok_message t) (fail_message t) result.

(** The failure every tool reports with the message [m]. *)
Definition tool_failure (t : ToolCall) (m : str) : WorktreeResult :=
  {| wr_success := false; wr_message := fail_message t;
     wr_data := None; wr_error := Some m |}.

(** The success every tool reports with the data [d]. *)
Definition tool_success (t : ToolCall) (d : dict) : WorktreeResult :=
  {| wr_success := true; wr_message := ok_message t;
     wr_data := Some d; wr_error := None |}.

(** What holds of the result of every tool: a success has data and no
    error, a failure has a non-empty error and no data. *)
Definition tool_invariant (w : WorktreeResult) : Prop :=
  (wr_success w = true ->
   wr_error w = None /\ exists kv d, wr_data w = Some (kv :: d))
  /\ (wr_success w = false ->
      wr_data w = None /\ exists m, wr_error w = Some m /\ m <> []).

(** An optional string that is empty counts as absent. *)
Definition blank_to_none (x : option str) : option str :=
  match x with
  | Some [] => None
  | _ => x
  end.

(** The call with its empty optional strings taken as absent. *)
Definition drop_blanks (t : ToolCall) : ToolCall :=
  match t with
  | CreateWorktree name worktree_type repo =>
      CreateWorktree name worktree_type (blank_to_none repo)
  | CreateReviewWorktree pr_number repo =>
      CreateReviewWorktree pr_number (blank_to_none repo)
  | ListWorktrees repo worktrees_only projects_only =>
      ListWorktrees (blank_to_none repo) worktrees_only projects_only
  | ShowStatus repo => ShowStatus (blank_to_none repo)
  | CreateProject concept prd name payload =>
      CreateProject (blank_to_none concept) (blank_to_none prd)
        (blank_to_none name) (blank_to_none payload)
  | NavigateWorktree query repo =>
      NavigateWorktree (blank_to_none query) (blank_to_none repo)
  | RemoveWorktree name repo keep_branch keep_remote =>
      RemoveWorktree name (blank_to_none repo) keep_branch keep_remote
  | SyncWorktrees repo => SyncWorktrees (blank_to_none repo)
  | PruneWorktrees repo dry_run => PruneWorktrees (blank_to_none repo) dry_run
  | ListTypes => ListTypes
  end.

(** A call that creates a process. *)
Definition is_exec (c : Call) : bool :=
  match c with
  | Exec _ => true
  | _ => false
  end.

(** A host on which the creation of the process raises. *)
Definition failing_host (e : exn) : Host :=
  {| shutil_which := fun _ => Some (lit "/usr/bin/imi");
     create_subprocess_exec := fun _ => SpawnRaises e;
     limits := sample_limits |}.

End ToolSpec.
Export ToolSpec.

(** ** How a result of the wrapper arises *)

Module Cases.

(** The six ways in which [run_imi_command] builds its result: the three
    fixed failures, the failure of a child with a non-zero status, the
    success without a structured line, and the result copied from the
    selected line. *)
Inductive arises (args : list str) (config : MCPConfig) (h : Host)
  : CLIResult -> Prop :=
| arises_not_found : arises args config h (not_found config)
| arises_timed_out : arises args config h (timed_out config)
| arises_unexpected e : arises args config h (unexpected e)
| arises_failed out err rc o e :
    completes args config h out err rc ->
    decode out = Some o -> decode err = Some e -> rc <> 0 ->
    arises args config h (command_failed (strip o) (strip e) rc)
| arises_plain out err o e :
    completes args config h out err 0 ->
    decode out = Some o -> decode err = Some e ->
    (forall l, In l (split_nl o) -> passed_over (limits h) l = true) ->
    arises args config h
      {| success := true; data := None; error := None;
         stdout := Some (strip o); stderr := Some (strip e);
         exit_code := 0 |}
| arises_line out err o e line kv b pd pe :
    completes args config h out err 0 ->
    decode out = Some o -> decode err = Some e ->
    last_qualifying (limits h) (split_nl o) line ->
    loads (limits h) (strip line) = Ok (JObject kv) ->
    validate_bool (dict_get (lit "success") (JBool true) kv) = Ok b ->
    validate_opt_dict (dict_get (lit "data") JNull kv) = Ok pd ->
    validate_opt_str (dict_get (lit "error") JNull kv) = Ok pe ->
    arises args config h
      {| success := b; data := pd; error := pe;
         stdout := Some (strip o); stderr := None; exit_code := 0 |}.

End Cases.
Export Cases.

(** * Properties *)

(** ** The text and the decoder on samples *)

Example strip_ex : strip (lit "  a b
") = lit "a b".
Proof. reflexivity. Qed.

Example split_ex : split_nl (lit "a
b
") = [lit "a"; lit "b"; lit ""].
Proof. reflexivity. Qed.

Example str_of_int_ex :
  str_of_int 0 = lit "0" /\ str_of_int 124 = lit "124" /\ str_of_int (-9) = lit "-9".
Proof. repeat split; reflexivity. Qed.

Example decode_ex :
  decode [226; 130; 172; 10] = Some [8364; 10] /\ decode [255] = None
  /\ decode [237; 160; 128] = None /\ decode [192; 128] = None.
Proof. repeat split; reflexivity. Qed.

Example loads_ex1 :
  loads sample_limits (qlit "{'success': true, 'data': {'path': '/x'}}")
  = Ok (JObject [(lit "success", JBool true);
                 (lit "data", JObject [(lit "path", JString (lit "/x"))])]).
Proof. reflexivity. Qed.

(** The two failures of [json.loads] that are not decode errors. *)
Example loads_limits_ex :
  loads {| int_max_str_digits := 4300; json_max_depth := 2 |}
    (qlit "{'a': [[1]]}") = Raise RecursionError
  /\ loads {| int_max_str_digits := 4300; json_max_depth := 3 |}
       (qlit "{'a': [[1]]}")
     = Ok (JObject [(lit "a", JArray [JArray [JInt 1]])])
  /\ loads sample_limits (lit "{" ++ repeat 49 4301 ++ lit "}")
     = Raise JSONDecodeError
  /\ loads sample_limits (qlit "{'n': " ++ repeat 49 4301 ++ lit "}")
     = Raise ValueError
  /\ too_many_digits sample_limits 4300 = false
  /\ too_many_digits sample_limits 4301 = true.
Proof.
  split; [vm_compute; reflexivity|].
  split; [vm_compute; reflexivity|].
  split; [vm_compute; reflexivity|].
  split; [vm_compute; reflexivity|].
  split; vm_compute; reflexivity.
Qed.

(** ** The decoder on a text that starts with a brace *)

Ltac destr_match H :=
  match type of H with
  | context [match ?x with _ => _ end] =>
      let E := fresh "E" in destruct x eqn:E; try discriminate H
  | context [if ?x then _ else _] =>
      let E := fresh "E" in destruct x eqn:E; try discriminate H
  end.

Lemma parse_members_object lim (n : nat) :
  forall depth s acc v r,
    parse_members lim n depth s acc = Ok (v, r) -> exists d, v = JObject d.
Proof.
  induction n as [|n IH]; intros depth s acc v r H; cbn [parse_members] in H;
    [discriminate|].
  destruct s as [|q r0]; [discriminate H|].
  destruct (q =? 34); [|discriminate H].
  destruct (scanstring r0 []) as [[k r1]|]; [|discriminate H].
  destruct (skip_ws r1) as [|col r2]; [discriminate H|].
  destruct (col =? 58); [|discriminate H].
  destruct (scan_once lim n depth (skip_ws r2)) as [[v1 r3]|e];
    [|discriminate H].
  cbv zeta in H.
  destruct (skip_ws r3) as [|d r4]; [discriminate H|].
  destruct (d =? 125); [injection H as <- _; eauto|].
  destruct (d =? 44); [|discriminate H].
  eapply IH; eassumption.
Qed.

Lemma startswith_brace (s : str) :
  startswith s (lit "{") = true -> exists r, s = 123 :: r.
Proof.
  change (lit "{") with [123].
  destruct s as [|c r]; cbn [startswith]; [discriminate|].
  rewrite andb_true_r. intros H. apply Z.eqb_eq in H. subst. eauto.
Qed.

(** [json.loads] of a text that starts with a brace returns a [dict]. *)
Lemma loads_brace_object lim (s : str) (v : json) :
  startswith s (lit "{") = true -> loads lim s = Ok v ->
  exists d, v = JObject d.
Proof.
  intros Hb H. destruct (startswith_brace s Hb) as [r ->].
  unfold loads in H.
  change (startswith (123 :: r) [65279]) with false in H.
  change (skip_ws (123 :: r)) with (123 :: r) in H.
  cbv beta iota in H.
  destruct (scan_once lim (fuel_for (123 :: r)) (json_max_depth lim)
              (123 :: r)) as [[v' r']|e] eqn:E; [|discriminate].
  destr_match H. injection H as ->.
  unfold fuel_for in E. cbn [scan_once] in E.
  change (123 =? 34) with false in E. change (123 =? 123) with true in E.
  cbv beta iota in E.
  destruct (json_max_depth lim) as [|depth]; [discriminate E|].
  destruct (skip_ws r) as [|c1 r1]; [discriminate|].
  destruct (c1 =? 125).
  - injection E as <- _. eauto.
  - eapply parse_members_object; eassumption.
Qed.

(** ** The fuel of the decoder *)

Lemma skip_ws_length (s : str) :
  (List.length (skip_ws s) <= List.length s)%nat.
Proof.
  induction s as [|c r IH]; [apply le_n|]. cbn [skip_ws].
  destruct (is_ws c); cbn [List.length] in *; lia.
Qed.

Lemma scanstring_length (n : nat) :
  forall s acc k r,
    (List.length s <= n)%nat ->
    scanstring s acc = Some (k, r) ->
    (List.length r < List.length s)%nat.
Proof.
  induction n as [|n IH]; intros s acc k r Hn H.
  - destruct s; [discriminate H | cbn [List.length] in Hn; lia].
  - destruct s as [|c s]; [discriminate H|]. cbn [scanstring] in H.
    cbn [List.length] in Hn.
    repeat destr_match H;
      try (injection H as _ <-; cbn [List.length]; lia);
      apply IH in H; cbn [List.length] in *; lia.
Qed.

Lemma span_digits_length (s : str) :
  forall d r, span_digits s = (d, r) ->
  (List.length r <= List.length s)%nat.
Proof.
  induction s as [|c s IH]; intros d r H; cbn [span_digits] in H.
  - injection H as _ <-. apply le_n.
  - destruct (is_digit c).
    + destruct (span_digits s) as [d' r'] eqn:E. injection H as _ <-.
      specialize (IH _ _ eq_refl). cbn [List.length]. lia.
    + injection H as _ <-. apply le_n.
Qed.

Lemma match_frac_length (s : str) :
  forall d r, match_frac s = (d, r) ->
  (List.length r <= List.length s)%nat.
Proof.
  intros d r H. unfold match_frac in H.
  destruct s as [|c s]; [injection H as _ <-; apply le_n|].
  destruct (c =? 46); [|injection H as _ <-; apply le_n].
  destruct (span_digits s) as [d' r'] eqn:E.
  apply span_digits_length in E.
  destruct d'; injection H as _ <-; cbn [List.length]; lia.
Qed.

Lemma match_exp_length (s : str) :
  forall x r, match_exp s = (x, r) ->
  (List.length r <= List.length s)%nat.
Proof.
  intros x r H. unfold match_exp in H.
  destruct s as [|c s]; [injection H as _ <-; apply le_n|].
  destruct ((c =? 101) || (c =? 69)); [|injection H as _ <-; apply le_n].
  destruct (match s with
            | [] => (false, s)
            | sg :: r' =>
                if sg =? 45 then (true, r')
                else if sg =? 43 then (false, r') else (false, s)
            end) as [neg r1] eqn:E1.
  assert (L1 : (List.length r1 <= List.length s)%nat).
  { destruct s as [|sg s']; [injection E1 as _ <-; apply le_n|].
    destruct (sg =? 45); [injection E1 as _ <-; cbn [List.length]; lia|].
    destruct (sg =? 43); injection E1 as _ <-; cbn [List.length]; lia. }
  destruct (span_digits r1) as [d' r'] eqn:E.
  apply span_digits_length in E.
  destruct d'; injection H as _ <-; cbn [List.length]; lia.
Qed.

Lemma match_number_length lim (s : str) :
  forall v r, match_number lim s = Ok (v, r) ->
  (List.length r < List.length s)%nat.
Proof.
  intros v r H. unfold match_number in H.
  destruct (match s with
            | [] => (false, s)
            | c :: r0 => if c =? 45 then (true, r0) else (false, s)
            end) as [neg s1] eqn:E1.
  assert (L1 : (List.length s1 <= List.length s)%nat).
  { destruct s as [|c s']; [injection E1 as _ <-; apply le_n|].
    destruct (c =? 45); injection E1 as _ <-; cbn [List.length]; lia. }
  destruct s1 as [|c r0]; [discriminate H|].
  destruct (if (49 <=? c) && (c <=? 57)
            then let (d, r') := span_digits r0 in Some (c :: d, r')
            else if c =? 48 then Some ([c], r0) else None)
    as [[idig s2]|] eqn:E2; [|discriminate H].
  assert (L2 : (List.length s2 <= List.length r0)%nat).
  { destruct ((49 <=? c) && (c <=? 57)).
    - destruct (span_digits r0) as [d r'] eqn:E. injection E2 as _ <-.
      exact (span_digits_length _ _ _ E).
    - destruct (c =? 48); [|discriminate E2]. injection E2 as _ <-.
      apply le_n. }
  destruct (match_frac s2) as [frac s3] eqn:E3.
  apply match_frac_length in E3.
  destruct (match_exp s3) as [ex s4] eqn:E4.
  apply match_exp_length in E4.
  cbn [List.length] in L1.
  destruct frac, ex; try (injection H as _ <-; lia).
  destruct (too_many_digits lim (List.length idig)); [discriminate H|].
  injection H as _ <-. lia.
Qed.

Lemma literal_length (c : Z) (s : str) (k : nat) :
  (0 < k)%nat -> (List.length (skipn k (c :: s)) < List.length (c :: s))%nat.
Proof. intros H. rewrite length_skipn. cbn [List.length]. lia. Qed.

(** The three loops of the scanner consume at least one character. *)
Lemma scan_length lim (n : nat) :
  (forall depth s v r, scan_once lim n depth s = Ok (v, r) ->
                       (List.length r < List.length s)%nat)
  /\ (forall depth s acc v r, parse_members lim n depth s acc = Ok (v, r) ->
                              (List.length r < List.length s)%nat)
  /\ (forall depth s acc v r, parse_elems lim n depth s acc = Ok (v, r) ->
                              (List.length r < List.length s)%nat).
Proof.
  induction n as [|n (IH1 & IH2 & IH3)];
    [repeat split; intros; discriminate|].
  repeat split.
  - intros depth s v r H. cbn [scan_once] in H.
    destruct s as [|c s]; [discriminate H|].
    destruct (c =? 34).
    { destruct (scanstring s []) as [[k r']|] eqn:E; [|discriminate H].
      injection H as _ <-. apply (scanstring_length _ _ _ _ _ (le_n _)) in E.
      cbn [List.length]. lia. }
    destruct (c =? 123).
    { destruct depth as [|depth]; [discriminate H|].
      pose proof (skip_ws_length s) as L.
      destruct (skip_ws s) as [|c1 r1]; [discriminate H|].
      destruct (c1 =? 125).
      - injection H as _ <-. cbn [List.length] in *. lia.
      - apply IH2 in H. cbn [List.length] in *. lia. }
    destruct (c =? 91).
    { destruct depth as [|depth]; [discriminate H|].
      pose proof (skip_ws_length s) as L.
      destruct (skip_ws s) as [|c1 r1]; [discriminate H|].
      destruct (c1 =? 93).
      - injection H as _ <-. cbn [List.length] in *. lia.
      - apply IH3 in H. cbn [List.length] in *. lia. }
    repeat match type of H with
           | (if ?b then Ok (_, skipn ?k _) else _) = _ =>
               destruct b;
               [injection H as _ <-;
                exact (literal_length c s k ltac:(lia))|]
           end.
    apply match_number_length in H. exact H.
  - intros depth s acc v r H. cbn [parse_members] in H.
    destruct s as [|q r0]; [discriminate H|].
    destruct (q =? 34); [|discriminate H].
    destruct (scanstring r0 []) as [[k r1]|] eqn:E1; [|discriminate H].
    apply (scanstring_length _ _ _ _ _ (le_n _)) in E1.
    pose proof (skip_ws_length r1) as L1.
    destruct (skip_ws r1) as [|col r2]; [discriminate H|].
    destruct (col =? 58); [|discriminate H].
    pose proof (skip_ws_length r2) as L2.
    destruct (scan_once lim n depth (skip_ws r2)) as [[v1 r3]|e] eqn:E3;
      [|discriminate H].
    apply IH1 in E3. cbv zeta in H.
    pose proof (skip_ws_length r3) as L3.
    destruct (skip_ws r3) as [|d r4]; [discriminate H|].
    destruct (d =? 125).
    + injection H as _ <-. cbn [List.length] in *. lia.
    + destruct (d =? 44); [|discriminate H].
      pose proof (skip_ws_length r4) as L4.
      apply IH2 in H. cbn [List.length] in *. lia.
  - intros depth s acc v r H. cbn [parse_elems] in H.
    destruct (scan_once lim n depth s) as [[v1 r1]|e] eqn:E1;
      [|discriminate H].
    apply IH1 in E1.
    pose proof (skip_ws_length r1) as L1.
    destruct (skip_ws r1) as [|d r2]; [discriminate H|].
    destruct (d =? 93).
    + injection H as _ <-. cbn [List.length] in *. lia.
    + destruct (d =? 44); [|discriminate H].
      pose proof (skip_ws_length r2) as L2.
      apply IH3 in H. cbn [List.length] in *. lia.
Qed.

(** With fuel above twice the length of the text, the result of a scan
    does not depend on the fuel: a value, a decode error and the two
    failures of the interpreter are all results of the scanner itself. *)
Lemma scan_fuel lim (n : nat) :
  (forall m depth s,
     (2 * List.length s < n)%nat -> (2 * List.length s < m)%nat ->
     scan_once lim n depth s = scan_once lim m depth s)
  /\ (forall m depth s acc,
        (2 * List.length s + 1 < n)%nat -> (2 * List.length s + 1 < m)%nat ->
        parse_members lim n depth s acc = parse_members lim m depth s acc)
  /\ (forall m depth s acc,
        (2 * List.length s + 1 < n)%nat -> (2 * List.length s + 1 < m)%nat ->
        parse_elems lim n depth s acc = parse_elems lim m depth s acc).
Proof.
  induction n as [|n (IH1 & IH2 & IH3)]; [repeat split; intros; lia|].
  repeat split.
  - intros m depth s Hn Hm. destruct m as [|m]; [lia|].
    cbn [scan_once]. destruct s as [|c s]; [reflexivity|].
    cbn [List.length] in Hn, Hm.
    destruct (c =? 34); [reflexivity|].
    destruct (c =? 123).
    { destruct depth as [|depth]; [reflexivity|].
      pose proof (skip_ws_length s) as L.
      destruct (skip_ws s) as [|c1 r1]; [reflexivity|].
      destruct (c1 =? 125); [reflexivity|].
      apply IH2; cbn [List.length] in *; lia. }
    destruct (c =? 91); [|reflexivity].
    destruct depth as [|depth]; [reflexivity|].
    pose proof (skip_ws_length s) as L.
    destruct (skip_ws s) as [|c1 r1]; [reflexivity|].
    destruct (c1 =? 93); [reflexivity|].
    apply IH3; cbn [List.length] in *; lia.
  - intros m depth s acc Hn Hm. destruct m as [|m]; [lia|].
    cbn [parse_members]. destruct s as [|q r0]; [reflexivity|].
    cbn [List.length] in Hn, Hm.
    destruct (q =? 34); [|reflexivity].
    destruct (scanstring r0 []) as [[k r1]|] eqn:E1; [|reflexivity].
    apply (scanstring_length _ _ _ _ _ (le_n _)) in E1.
    pose proof (skip_ws_length r1) as L1.
    destruct (skip_ws r1) as [|col r2]; [reflexivity|].
    destruct (col =? 58); [|reflexivity].
    pose proof (skip_ws_length r2) as L2. cbn [List.length] in L1.
    rewrite (IH1 m depth (skip_ws r2)) by lia.
    destruct (scan_once lim m depth (skip_ws r2)) as [[v1 r3]|e] eqn:E3;
      [|reflexivity].
    apply (proj1 (scan_length lim m)) in E3. cbv zeta.
    pose proof (skip_ws_length r3) as L3.
    destruct (skip_ws r3) as [|d r4]; [reflexivity|].
    destruct (d =? 125); [reflexivity|].
    destruct (d =? 44); [|reflexivity].
    pose proof (skip_ws_length r4) as L4. cbn [List.length] in L3.
    apply IH2; lia.
  - intros m depth s acc Hn Hm. destruct m as [|m]; [lia|].
    cbn [parse_elems].
    rewrite (IH1 m depth s) by lia.
    destruct (scan_once lim m depth s) as [[v1 r1]|e] eqn:E1; [|reflexivity].
    apply (proj1 (scan_length lim m)) in E1.
    pose proof (skip_ws_length r1) as L1.
    destruct (skip_ws r1) as [|d r2]; [reflexivity|].
    destruct (d =? 93); [reflexivity|].
    destruct (d =? 44); [|reflexivity].
    pose proof (skip_ws_length r2) as L2. cbn [List.length] in L1.
    apply IH3; lia.
Qed.

(** The fuel that [loads] gives is enough: with any larger fuel the scan
    has the same result, so a decode error is a failure of the decoder
    and never a lack of fuel. *)
Lemma loads_fuel_enough lim (s : str) (n depth : nat) :
  (fuel_for s <= n)%nat ->
  scan_once lim n depth (skip_ws s)
  = scan_once lim (fuel_for s) depth (skip_ws s).
Proof.
  intros Hn. pose proof (skip_ws_length s) as L. unfold fuel_for in *.
  apply (proj1 (scan_fuel lim n)); lia.
Qed.

(** The decoder raises nothing but its three exceptions. *)
Lemma match_number_raises lim s e :
  match_number lim s = Raise e -> e = JSONDecodeError \/ e = ValueError.
Proof.
  unfold match_number.
  destruct (match s with
            | [] => (false, s)
            | c :: r0 => if c =? 45 then (true, r0) else (false, s)
            end) as [neg s1].
  destruct s1 as [|c r0]; [intros H; injection H as <-; auto|].
  destruct (if (49 <=? c) && (c <=? 57)
            then let (d, r') := span_digits r0 in Some (c :: d, r')
            else if c =? 48 then Some ([c], r0) else None)
    as [[idig s2]|]; [|intros H; injection H as <-; auto].
  destruct (match_frac s2) as [frac s3].
  destruct (match_exp s3) as [ex s4].
  destruct frac, ex; try discriminate.
  destruct (too_many_digits lim (List.length idig)); [|discriminate].
  intros H. injection H as <-. auto.
Qed.

Lemma scan_raises lim (n : nat) :
  (forall depth s e, scan_once lim n depth s = Raise e ->
     e = JSONDecodeError \/ e = RecursionError \/ e = ValueError)
  /\ (forall depth s acc e, parse_members lim n depth s acc = Raise e ->
        e = JSONDecodeError \/ e = RecursionError \/ e = ValueError)
  /\ (forall depth s acc e, parse_elems lim n depth s acc = Raise e ->
        e = JSONDecodeError \/ e = RecursionError \/ e = ValueError).
Proof.
  assert (J : forall e, Raise (A := json * str) JSONDecodeError = Raise e ->
              e = JSONDecodeError \/ e = RecursionError \/ e = ValueError)
    by (intros e H; injection H as <-; auto).
  assert (R : forall e, Raise (A := json * str) RecursionError = Raise e ->
              e = JSONDecodeError \/ e = RecursionError \/ e = ValueError)
    by (intros e H; injection H as <-; auto).
  induction n as [|n (IH1 & IH2 & IH3)];
    [repeat split; intros; apply J; assumption|].
  repeat split.
  - intros depth s e. cbn [scan_once].
    destruct s as [|c s]; [apply J|].
    destruct (c =? 34).
    { destruct (scanstring s []) as [[k r']|]; [discriminate | apply J]. }
    destruct (c =? 123).
    { destruct depth as [|depth]; [apply R|].
      destruct (skip_ws s) as [|c1 r1]; [apply J|].
      destruct (c1 =? 125); [discriminate | apply IH2]. }
    destruct (c =? 91).
    { destruct depth as [|depth]; [apply R|].
      destruct (skip_ws s) as [|c1 r1]; [apply J|].
      destruct (c1 =? 93); [discriminate | apply IH3]. }
    repeat match goal with
           | |- (if ?b then Ok _ else _) = _ -> _ =>
               destruct b; [discriminate|]
           end.
    intros H. apply match_number_raises in H. tauto.
  - intros depth s acc e. cbn [parse_members].
    destruct s as [|q r0]; [apply J|].
    destruct (q =? 34); [|apply J].
    destruct (scanstring r0 []) as [[k r1]|]; [|apply J].
    destruct (skip_ws r1) as [|col r2]; [apply J|].
    destruct (col =? 58); [|apply J].
    destruct (scan_once lim n depth (skip_ws r2)) as [[v1 r3]|x] eqn:E3.
    + cbv zeta. destruct (skip_ws r3) as [|d r4]; [apply J|].
      destruct (d =? 125); [discriminate|].
      destruct (d =? 44); [apply IH2 | apply J].
    + intros H. injection H as <-. eapply IH1; eassumption.
  - intros depth s acc e. cbn [parse_elems].
    destruct (scan_once lim n depth s) as [[v1 r1]|x] eqn:E1.
    + destruct (skip_ws r1) as [|d r2]; [apply J|].
      destruct (d =? 93); [discriminate|].
      destruct (d =? 44); [apply IH3 | apply J].
    + intros H. injection H as <-. eapply IH1; eassumption.
Qed.

Lemma loads_raises lim s e :
  loads lim s = Raise e ->
  e = JSONDecodeError \/ e = RecursionError \/ e = ValueError.
Proof.
  unfold loads. destruct (startswith s [65279]);
    [intros H; injection H as <-; auto|].
  destruct (scan_once lim (fuel_for s) (json_max_depth lim) (skip_ws s))
    as [[v r]|x] eqn:E.
  - destruct (skip_ws r); [discriminate|]. intros H. injection H as <-. auto.
  - intros H. injection H as <-.
    eapply (proj1 (scan_raises lim _)); eassumption.
Qed.

(** ** The scan of the lines *)

Lemma aborts_not_qualifies lim (t : str) (e : exn) :
  aborts_text lim t = Some e -> qualifies_text lim t = false.
Proof.
  unfold aborts_text, qualifies_text.
  destruct (startswith t (lit "{")); [|discriminate].
  destruct (loads lim t); [discriminate | reflexivity].
Qed.

Lemma aborts_not_decode_error lim (t : str) (e : exn) :
  aborts_text lim t = Some e -> e = RecursionError \/ e = ValueError.
Proof.
  unfold aborts_text. destruct (startswith t (lit "{")); [|discriminate].
  destruct (loads lim t) as [v|x] eqn:E; [discriminate|].
  apply loads_raises in E.
  destruct E as [-> | [-> | ->]]; [discriminate | |];
    intros H; injection H as <-; auto.
Qed.

(** The loop over the reversed lines stops at the first line that it does
    not pass over, and answers from that line. *)
Lemma find_json_line_find lim (rl : list str) :
  find_json_line lim rl
  = verdict_text lim
      (option_map strip (find (fun l => negb (passed_over lim l)) rl)).
Proof.
  induction rl as [|line rest IH]; cbn [find_json_line find]; [reflexivity|].
  unfold passed_over at 1, passed_over_text, qualifies_text, aborts_text.
  destruct (startswith (strip line) (lit "{")) eqn:Hb; cbn [andb negb];
    [|exact IH].
  unfold json_loads.
  destruct (loads lim (strip line)) as [v|e] eqn:Hl.
  - destruct (loads_brace_object _ _ _ Hb Hl) as [d ->].
    cbn [has_success bind].
    destruct (dict_mem (lit "success") d) eqn:Hm; cbn [negb andb];
      [|exact IH].
    cbn [option_map verdict_text]. unfold qualifies_text.
    rewrite Hb, Hl, Hm. reflexivity.
  - destruct e; cbn [negb andb]; try exact IH;
      cbn [option_map verdict_text]; unfold qualifies_text, aborts_text;
      rewrite Hb, Hl; reflexivity.
Qed.

Section Find.
Context {A : Type} (f : A -> bool).

Lemma find_app_none (a b : list A) :
  (forall x, In x a -> f x = false) -> find f (a ++ b) = find f b.
Proof.
  induction a as [|x a IH]; intros H; [reflexivity|].
  cbn [app find]. rewrite (H x (or_introl eq_refl)).
  apply IH. intros y Hy. apply H. right. exact Hy.
Qed.

Lemma find_rev_last (pre post : list A) (x : A) :
  f x = true -> (forall y, In y post -> f y = false) ->
  find f (rev (pre ++ x :: post)) = Some x.
Proof.
  intros Hx Hpost. rewrite rev_app_distr. cbn [rev]. rewrite <- app_assoc.
  rewrite find_app_none.
  - cbn [app find]. rewrite Hx. reflexivity.
  - intros y Hy. apply Hpost. apply in_rev. exact Hy.
Qed.

Lemma find_rev_none (l : list A) :
  (forall y, In y l -> f y = false) -> find f (rev l) = None.
Proof.
  intros H. rewrite <- (app_nil_r (rev l)). rewrite find_app_none.
  - reflexivity.
  - intros y Hy. apply H. apply in_rev. exact Hy.
Qed.

Lemma find_rev_inv (l : list A) :
  forall x, find f (rev l) = Some x ->
  exists pre post,
    l = pre ++ x :: post /\ f x = true
    /\ forall y, In y post -> f y = false.
Proof.
  induction l as [|a l IH] using rev_ind; intros x H; [discriminate|].
  rewrite rev_app_distr in H. cbn [rev app find] in H.
  destruct (f a) eqn:Ha.
  - injection H as <-. exists l, []. repeat split; [assumption|].
    intros y [].
  - destruct (IH x H) as (pre & post & -> & Hx & Hpost).
    exists pre, (post ++ [a]). repeat split.
    + rewrite <- app_assoc. reflexivity.
    + exact Hx.
    + intros y Hy. apply in_app_or in Hy. destruct Hy as [Hy|[<-|[]]].
      * apply Hpost. exact Hy.
      * exact Ha.
Qed.

Lemma find_none_all (l : list A) :
  find f l = None -> forall y, In y l -> f y = false.
Proof.
  intros H y Hy. destruct (f y) eqn:E; [|reflexivity].
  apply (find_none f l H) in Hy. congruence.
Qed.
End Find.

(** ** Trimming the whole text does not change the scan *)

Lemma lstrip_app (a b : str) :
  lstrip (a ++ b)
  = match lstrip a with [] => lstrip b | _ :: _ => lstrip a ++ b end.
Proof.
  induction a as [|c a IH]; [reflexivity|].
  cbn [app lstrip]. destruct (isspace c); [exact IH | reflexivity].
Qed.

Lemma rstrip_cons (c : Z) (r : str) :
  rstrip (c :: r)
  = match rstrip r with
    | [] => if isspace c then [] else [c]
    | _ :: _ => c :: rstrip r
    end.
Proof.
  unfold rstrip. cbn [rev]. rewrite lstrip_app.
  destruct (lstrip (rev r)) as [|x l] eqn:E.
  - cbn [rev lstrip]. destruct (isspace c); reflexivity.
  - rewrite rev_app_distr. cbn [rev app].
    destruct (rev l ++ [x]) as [|y m] eqn:E2; [|reflexivity].
    destruct (rev l); discriminate E2.
Qed.

Lemma lstrip_rstrip (l : str) : lstrip (rstrip l) = rstrip (lstrip l).
Proof.
  induction l as [|c r IH]; [reflexivity|].
  rewrite rstrip_cons. cbn [lstrip]. destruct (isspace c) eqn:Hc.
  - destruct (rstrip r) as [|x m] eqn:E.
    + rewrite <- IH. reflexivity.
    + cbn [lstrip]. rewrite Hc. exact IH.
  - rewrite rstrip_cons.
    destruct (rstrip r); cbn [lstrip]; rewrite Hc; reflexivity.
Qed.

Lemma strip_lstrip_rstrip (l : str) : strip l = lstrip (rstrip l).
Proof. unfold strip. symmetry. apply lstrip_rstrip. Qed.

Lemma strip_cons_space (c : Z) (l : str) :
  isspace c = true -> strip (c :: l) = strip l.
Proof. intros H. unfold strip. cbn [lstrip]. rewrite H. reflexivity. Qed.

Lemma lstrip_decomp (s : str) :
  exists ws, s = ws ++ lstrip s /\ forallb isspace ws = true.
Proof.
  induction s as [|c r (ws & E & H)]; [exists []; split; reflexivity|].
  cbn [lstrip]. destruct (isspace c) eqn:Hc.
  - exists (c :: ws). cbn [app forallb]. rewrite Hc, H. rewrite <- E.
    split; reflexivity.
  - exists []. split; reflexivity.
Qed.

Lemma rstrip_decomp (s : str) :
  exists ws, s = rstrip s ++ ws /\ forallb isspace ws = true.
Proof.
  induction s as [|c r (ws & E & H)]; [exists []; split; reflexivity|].
  rewrite rstrip_cons. destruct (rstrip r) as [|x m] eqn:Er.
  - cbn [app] in E. subst r. destruct (isspace c) eqn:Hc.
    + exists (c :: ws). cbn [app forallb]. rewrite Hc, H. split; reflexivity.
    + exists ws. split; [reflexivity | exact H].
  - exists ws. split; [|exact H]. cbn [app] in E |- *. f_equal. exact E.
Qed.

Lemma split_nl_cons (s : str) : exists l ls, split_nl s = l :: ls.
Proof.
  induction s as [|c r (l & ls & E)]; [exists [], []; reflexivity|].
  cbn [split_nl]. destruct (c =? 10); [eauto|]. rewrite E. eauto.
Qed.

Lemma blank_prefix_lines (ws t : str) :
  forallb isspace ws = true ->
  exists a,
    map strip (split_nl (ws ++ t)) = repeat [] a ++ map strip (split_nl t).
Proof.
  induction ws as [|c ws IH]; intros H; [exists O; reflexivity|].
  cbn [forallb] in H. apply andb_prop in H. destruct H as [Hc H].
  destruct (IH H) as [a Ha]. cbn [app split_nl].
  destruct (c =? 10).
  - exists (S a). cbn [map repeat app]. rewrite Ha. reflexivity.
  - destruct (split_nl_cons (ws ++ t)) as (l & ls & E). rewrite E in *.
    exists a. cbn [map] in *. rewrite (strip_cons_space _ _ Hc). exact Ha.
Qed.

Lemma blank_lines (ws : str) :
  forallb isspace ws = true ->
  map rstrip (split_nl ws) = repeat [] (List.length (split_nl ws)).
Proof.
  induction ws as [|c ws IH]; intros H; [reflexivity|].
  cbn [forallb] in H. apply andb_prop in H. destruct H as [Hc H].
  specialize (IH H). cbn [split_nl]. destruct (c =? 10).
  - cbn [map List.length repeat]. rewrite IH. reflexivity.
  - destruct (split_nl ws) as [|l ls].
    + cbn [map List.length repeat]. rewrite rstrip_cons. cbn [rstrip].
      change (rstrip []) with (@nil Z). rewrite Hc. reflexivity.
    + cbn [map List.length repeat] in *. injection IH as Hl Hls.
      rewrite rstrip_cons, Hl, Hc, Hls. reflexivity.
Qed.

Lemma blank_suffix_lines_rstrip (t ws : str) :
  forallb isspace ws = true ->
  exists b,
    map rstrip (split_nl (t ++ ws))
    = map rstrip (split_nl t) ++ repeat [] b.
Proof.
  intros H. induction t as [|c t (b & Hb)].
  - cbn [app]. rewrite (blank_lines _ H).
    destruct (split_nl_cons ws) as (l & ls & ->).
    exists (List.length ls). reflexivity.
  - cbn [app split_nl]. destruct (c =? 10).
    + exists b. cbn [map app]. rewrite Hb. reflexivity.
    + destruct (split_nl_cons (t ++ ws)) as (l & ls & E).
      destruct (split_nl_cons t) as (l' & ls' & E').
      rewrite E, E' in *. cbn [map app] in *. injection Hb as Hl Hls.
      exists b. rewrite !rstrip_cons, Hl, Hls. reflexivity.
Qed.

Lemma map_lstrip_blank (n : nat) :
  map lstrip (repeat ([] : str) n) = repeat [] n.
Proof. induction n as [|n IH]; [reflexivity|]. cbn. rewrite IH. reflexivity. Qed.

Lemma blank_suffix_lines (t ws : str) :
  forallb isspace ws = true ->
  exists b,
    map strip (split_nl (t ++ ws)) = map strip (split_nl t) ++ repeat [] b.
Proof.
  intros H. destruct (blank_suffix_lines_rstrip t ws H) as [b Hb].
  exists b.
  rewrite !(map_ext strip (fun l => lstrip (rstrip l)) strip_lstrip_rstrip).
  rewrite <- !(map_map rstrip lstrip). rewrite Hb, map_app, map_lstrip_blank.
  reflexivity.
Qed.

(** The trimmed lines of the captured text are those of the trimmed text,
    between blank lines. *)
Lemma trimmed_lines (o : str) :
  exists a b,
    map strip (split_nl o)
    = repeat [] a ++ map strip (split_nl (strip o)) ++ repeat [] b.
Proof.
  destruct (lstrip_decomp o) as (w1 & E1 & H1).
  destruct (rstrip_decomp (lstrip o)) as (w2 & E2 & H2).
  destruct (blank_prefix_lines w1 (lstrip o) H1) as [a Ha].
  destruct (blank_suffix_lines (strip o) w2 H2) as [b Hb].
  exists a, b. rewrite E1 at 1. rewrite Ha. f_equal.
  rewrite E2 at 1. exact Hb.
Qed.

Lemma find_map {A B : Type} (f : B -> bool) (g : A -> B) (l : list A) :
  find f (map g l) = option_map g (find (fun x => f (g x)) l).
Proof.
  induction l as [|x l IH]; [reflexivity|]. cbn [map find].
  destruct (f (g x)); [reflexivity | exact IH].
Qed.

Lemma rev_blank (n : nat) : rev (repeat ([] : str) n) = repeat [] n.
Proof.
  induction n as [|n IH]; [reflexivity|]. cbn [repeat rev]. rewrite IH.
  clear IH. induction n as [|n IH]; [reflexivity|].
  cbn [repeat app]. rewrite IH. reflexivity.
Qed.

Lemma find_blank_prefix lim (n : nat) (X : list str) :
  find (fun t => negb (passed_over_text lim t)) (repeat [] n ++ X)
  = find (fun t => negb (passed_over_text lim t)) X.
Proof. induction n as [|n IH]; [reflexivity|]. exact IH. Qed.

Lemma find_blank_suffix lim (n : nat) (X : list str) :
  find (fun t => negb (passed_over_text lim t)) (X ++ repeat [] n)
  = find (fun t => negb (passed_over_text lim t)) X.
Proof.
  induction X as [|x X IH].
  - rewrite <- (app_nil_r (repeat [] n)). apply find_blank_prefix.
  - cbn [app find]. destruct (negb (passed_over_text lim x));
      [reflexivity | exact IH].
Qed.

Lemma scan_stripped lim (L : list str) :
  option_map strip (find (fun l => negb (passed_over lim l)) (rev L))
  = find (fun t => negb (passed_over_text lim t)) (rev (map strip L)).
Proof. rewrite <- map_rev, find_map. reflexivity. Qed.

Lemma scan_trim lim (o : str) :
  option_map strip
    (find (fun l => negb (passed_over lim l)) (rev (split_nl (strip o))))
  = option_map strip
      (find (fun l => negb (passed_over lim l)) (rev (split_nl o))).
Proof.
  rewrite !scan_stripped. destruct (trimmed_lines o) as (a & b & ->).
  rewrite !rev_app_distr, !rev_blank, <- app_assoc.
  rewrite find_blank_prefix, find_blank_suffix. reflexivity.
Qed.

(** ** The wrapper on an execution *)

Lemma run_spawned args config h wait :
  spawns args config h wait ->
  exists imi_binary,
    run_imi_command args config h
    = ([Which (imi_binary_path config);
        Exec (imi_binary :: lit "--json" :: args);
        WaitFor (timeout_seconds config)],
       handlers config
         match wait (timeout_seconds config) with
         | Completed out err rc => parse_output (limits h) out err rc
         | TimedOut _ _ => Raise TimeoutError
         | CommRaises e => Raise e
         end).
Proof.
  intros (imi_binary & [Hw Ht] & Hs). exists imi_binary.
  unfold run_imi_command, run_process. rewrite Hw, Ht, Hs.
  destruct (wait (timeout_seconds config)); reflexivity.
Qed.

Lemma run_completed args config h out err rc :
  completes args config h out err rc ->
  snd (run_imi_command args config h)
  = handlers config (parse_output (limits h) out err rc).
Proof.
  intros (wait & Hs & Hc). destruct (run_spawned _ _ _ _ Hs) as [b ->].
  rewrite Hc. reflexivity.
Qed.

Lemma qualifies_truthy lim (line : str) :
  qualifies lim line = true -> truthy (strip line) = true.
Proof.
  unfold qualifies, qualifies_text. intros H. apply andb_prop in H.
  destruct H as [H _].
  destruct (startswith_brace _ H) as [r ->]. reflexivity.
Qed.

Lemma qualifies_not_passed lim (line : str) :
  qualifies lim line = true -> negb (passed_over lim line) = true.
Proof.
  unfold passed_over, passed_over_text, qualifies. intros ->. reflexivity.
Qed.

Lemma passed_not_qualifies lim (line : str) :
  passed_over lim line = true -> qualifies lim line = false.
Proof.
  unfold passed_over, passed_over_text, qualifies.
  destruct (qualifies_text lim (strip line)); [discriminate | reflexivity].
Qed.

(** The scan reaches the line that is selected. *)
Lemma scan_selects lim (lines : list str) (line : str) :
  last_qualifying lim lines line ->
  find (fun l => negb (passed_over lim l)) (rev lines) = Some line.
Proof.
  intros (pre & post & -> & Hq & Hp). apply find_rev_last.
  - apply qualifies_not_passed. exact Hq.
  - intros y Hy. rewrite (Hp y Hy). reflexivity.
Qed.

Lemma scan_passes lim (lines : list str) :
  (forall l, In l lines -> passed_over lim l = true) ->
  find (fun l => negb (passed_over lim l)) (rev lines) = None.
Proof.
  intros H. apply find_rev_none. intros y Hy. rewrite (H y Hy). reflexivity.
Qed.

Lemma scan_stops lim (lines : list str) (x : exn) :
  scan_aborts lim lines x ->
  exists line,
    find (fun l => negb (passed_over lim l)) (rev lines) = Some line
    /\ aborts lim line = Some x.
Proof.
  intros (pre & line & post & -> & Ha & Hp). exists line.
  split; [|exact Ha]. apply find_rev_last.
  - unfold passed_over, passed_over_text. unfold aborts in Ha. rewrite Ha.
    rewrite andb_false_r. reflexivity.
  - intros y Hy. rewrite (Hp y Hy). reflexivity.
Qed.

(** What the scan found, read back from its first line not passed over. *)
Lemma scan_found lim (lines : list str) (line : str) :
  find (fun l => negb (passed_over lim l)) (rev lines) = Some line ->
  last_qualifying lim lines line
  \/ exists x, scan_aborts lim lines x.
Proof.
  intros F.
  destruct (find_rev_inv _ _ _ F) as (pre & post & Hl & Hq & Hp).
  assert (Hp' : forall l, In l post -> passed_over lim l = true).
  { intros l Hin. specialize (Hp l Hin).
    destruct (passed_over lim l); [reflexivity | discriminate Hp]. }
  destruct (qualifies lim line) eqn:Q.
  - left. exists pre, post. auto.
  - right. unfold passed_over, passed_over_text in Hq.
    unfold qualifies in Q. rewrite Q in Hq. cbn [negb andb] in Hq.
    destruct (aborts_text lim (strip line)) as [x|] eqn:A; [|discriminate Hq].
    exists x, pre, line, post. auto.
Qed.

(** The branch of exit status zero when a line is selected. *)
Lemma parse_success_selected lim o stderr_str rc line d :
  last_qualifying lim (split_nl o) line ->
  loads lim (strip line) = Ok (JObject d) ->
  parse_success lim (strip o) stderr_str rc
  = CLIResult_of_json (dict_get (lit "success") (JBool true) d)
      (dict_get (lit "data") JNull d) (dict_get (lit "error") JNull d)
      (strip o) rc.
Proof.
  intros Hsel Hloads. pose proof Hsel as (pre & post & _ & Hq & _).
  unfold parse_success.
  rewrite find_json_line_find, scan_trim, (scan_selects _ _ _ Hsel).
  cbn [option_map verdict_text]. unfold qualifies in Hq. rewrite Hq.
  cbn [bind]. rewrite (qualifies_truthy lim _ Hq).
  unfold json_loads. rewrite Hloads. cbn [bind py_get].
  unfold CLIResult_of_json.
  destruct (validate_bool (dict_get (lit "success") (JBool true) d)),
    (validate_opt_dict (dict_get (lit "data") JNull d)),
    (validate_opt_str (dict_get (lit "error") JNull d)); reflexivity.
Qed.

(** The branch of exit status zero when every line is passed over. *)
Lemma parse_success_plain lim o stderr_str rc :
  (forall l, In l (split_nl o) -> passed_over lim l = true) ->
  parse_success lim (strip o) stderr_str rc
  = Ok {| success := true; data := None; error := None;
          stdout := Some (strip o); stderr := Some stderr_str;
          exit_code := rc |}.
Proof.
  intros H. unfold parse_success.
  rewrite find_json_line_find, scan_trim, (scan_passes _ _ H).
  reflexivity.
Qed.

(** The branch of exit status zero when [json.loads] ends the scan: the
    exception is not a decode error, and the handler of lines 91-98 lets
    it pass. *)
Lemma parse_success_aborts lim o stderr_str rc x :
  scan_aborts lim (split_nl o) x ->
  parse_success lim (strip o) stderr_str rc = Raise x
  /\ (x = RecursionError \/ x = ValueError).
Proof.
  intros Hab. destruct (scan_stops _ _ _ Hab) as (line & F & Ha).
  unfold aborts in Ha. pose proof (aborts_not_decode_error _ _ _ Ha) as Hx.
  split; [|exact Hx]. unfold parse_success.
  rewrite find_json_line_find, scan_trim, F.
  cbn [option_map verdict_text].
  rewrite (aborts_not_qualifies _ _ _ Ha), Ha.
  destruct Hx as [-> | ->]; reflexivity.
Qed.

Lemma sample_completes args out err rc :
  completes args sample_config (sample_host out err rc) out err rc.
Proof.
  exists (fun _ => Completed out err rc). split; [|reflexivity].
  exists (lit "/usr/bin/imi"). repeat split.
Qed.

(** The wrapper when [json.loads] ends the scan. *)
Lemma run_aborts args config h out err o e x :
  completes args config h out err 0 ->
  decode out = Some o -> decode err = Some e ->
  scan_aborts (limits h) (split_nl o) x ->
  snd (run_imi_command args config h) = Ok (unexpected x).
Proof.
  intros Hc Ho He Hab. rewrite (run_completed _ _ _ _ _ _ Hc).
  unfold parse_output, decode_utf8. rewrite Ho, He. cbn [bind].
  change (0 =? 0) with true. cbv iota.
  destruct (parse_success_aborts _ _ (strip e) 0 _ Hab) as [-> [-> | ->]];
    reflexivity.
Qed.

(** A text between two characters that are not whitespace is its own
    trimmed text. *)
Lemma rstrip_last (a : str) (d : Z) :
  isspace d = false -> rstrip (a ++ [d]) = a ++ [d].
Proof.
  intros H. unfold rstrip. rewrite rev_app_distr. cbn [rev app lstrip].
  rewrite H. cbn [rev]. rewrite rev_involutive. reflexivity.
Qed.

Lemma strip_trimmed (c d : Z) (m : str) :
  isspace c = false -> isspace d = false ->
  strip (c :: m ++ [d]) = c :: m ++ [d].
Proof.
  intros Hc Hd. unfold strip. cbn [lstrip]. rewrite Hc.
  apply (rstrip_last (c :: m) d Hd).
Qed.

Lemma deep_line_trimmed : strip deep_line = deep_line.
Proof.
  apply (strip_trimmed 123 125
           (qlit "'a': " ++ repeat 91 1000 ++ repeat 93 1000));
    reflexivity.
Qed.

Lemma long_int_line_trimmed : strip long_int_line = long_int_line.
Proof.
  apply (strip_trimmed 123 125 (qlit "'n': " ++ repeat 49 4301));
    reflexivity.
Qed.

(** The two sample lines end the scan, each with its exception. *)
Lemma deep_line_aborts : aborts sample_limits deep_line = Some RecursionError.
Proof.
  unfold aborts. rewrite deep_line_trimmed. vm_compute. reflexivity.
Qed.

Lemma long_int_line_aborts :
  aborts sample_limits long_int_line = Some ValueError.
Proof.
  unfold aborts. rewrite long_int_line_trimmed. vm_compute. reflexivity.
Qed.

Lemma aborts_no_qualifies lim (line : str) (x : exn) :
  aborts lim line = Some x -> qualifies lim line = false.
Proof. apply aborts_not_qualifies. Qed.

(** A sample run whose last line ends the scan. *)
Lemma sample_aborts args (out : bytes) (pre : list str) (line : str) x :
  decode out = Some out ->
  split_nl out = pre ++ [line] ->
  aborts sample_limits line = Some x ->
  snd (run_imi_command args sample_config (sample_host out [] 0))
  = Ok (unexpected x).
Proof.
  intros Hd Hl Ha.
  apply (run_aborts args sample_config (sample_host out [] 0)
           out [] out [] x (sample_completes _ _ _ _) Hd eq_refl).
  exists pre, line, []. split; [exact Hl|]. split; [exact Ha|].
  intros l [].
Qed.

(** ** Extraction of the structured line *)

(** C1, as amended. On an execution with exit status zero whose output
    decodes as UTF-8, the lines of the captured stdout are scanned from the
    last to the first and the first line met that qualifies (trimmed text
    starting with a brace, decoding as an object, with a field [success])
    is selected, provided the scan reaches it: on no line after it does
    [json.loads] fail with something that is not a decode error. When the
    fields of the selected line pass the validation of the result model,
    the result has [success] from the field [success], [data] from the
    field [data] (absent when the field is missing or null), [error] from
    the field [error] (likewise), the trimmed stdout, and exit code 0. *)
Theorem extraction_selects_last_line
    args config h out err o e line d b pd pe :
  completes args config h out err 0 ->
  decode out = Some o -> decode err = Some e ->
  last_qualifying (limits h) (split_nl o) line ->
  loads (limits h) (strip line) = Ok (JObject d) ->
  validate_bool (dict_get (lit "success") (JBool true) d) = Ok b ->
  validate_opt_dict (dict_get (lit "data") JNull d) = Ok pd ->
  validate_opt_str (dict_get (lit "error") JNull d) = Ok pe ->
  snd (run_imi_command args config h)
  = Ok {| success := b; data := pd; error := pe;
          stdout := Some (strip o); stderr := None; exit_code := 0 |}.
Proof.
  intros Hc Ho He Hsel Hloads Hb Hd Hm.
  rewrite (run_completed _ _ _ _ _ _ Hc).
  unfold parse_output, decode_utf8. rewrite Ho, He. cbn [bind].
  change (0 =? 0) with true. cbv iota.
  rewrite (parse_success_selected _ _ _ _ _ _ Hsel Hloads).
  unfold CLIResult_of_json. rewrite Hb, Hd, Hm. reflexivity.
Qed.

(** The sample run with the banner: the structured line is selected, the
    broken line before it and the line after it are passed over. *)
Lemma extraction_selects_last_line_witness :
  snd (run_imi_command [lit "add"] sample_config
         (sample_host banner_stdout (lit "warn") 0))
  = Ok {| success := true;
          data := Some [(lit "path", JString (lit "/x"))];
          error := None;
          stdout := Some (strip banner_stdout);
          stderr := None; exit_code := 0 |}.
Proof.
  apply (extraction_selects_last_line
           [lit "add"] sample_config
           (sample_host banner_stdout (lit "warn") 0)
           banner_stdout (lit "warn") banner_stdout (lit "warn")
           structured_line
           [(lit "success", JBool true);
            (lit "data", JObject [(lit "path", JString (lit "/x"))])]
           true (Some [(lit "path", JString (lit "/x"))]) None).
  - apply sample_completes.
  - reflexivity.
  - reflexivity.
  - exists [lit "Cloning..."; lit "{broken"], [lit "Done."; []].
    split; [reflexivity|]. split; [reflexivity|].
    intros l [<-|[<-|[]]]; reflexivity.
  - reflexivity.
  - reflexivity.
  - reflexivity.
  - reflexivity.
Defined.

(** C1, refuted as stated: a selected line whose [data] is a list is
    rejected by the result model and the result carries exit code 1. The
    same result comes when the line is well formed and stderr is not
    UTF-8, and when a line after the structured one starts with a brace
    and makes [json.loads] raise [RecursionError] (nesting beyond the
    limit of the interpreter) or [ValueError] (an integer beyond the
    limit of digits): the scan ends there and the structured line is
    never read. *)
Lemma extraction_not_as_stated :
  ~ extraction_as_stated
  /\ snd (run_imi_command [lit "list"] sample_config
            (sample_host (qlit "{'success': true, 'data': [1, 2]}") [] 0))
     = Ok (unexpected ValidationError)
  /\ snd (run_imi_command [lit "add"] sample_config
            (sample_host structured_line [255] 0))
     = Ok (unexpected UnicodeDecodeError)
  /\ selected_as_stated sample_limits
       [structured_line; deep_line] structured_line
  /\ snd (run_imi_command [lit "add"] sample_config
            (sample_host (structured_line ++ [10] ++ deep_line) [] 0))
     = Ok (unexpected RecursionError)
  /\ selected_as_stated sample_limits
       [structured_line; long_int_line] structured_line
  /\ snd (run_imi_command [lit "add"] sample_config
            (sample_host (structured_line ++ [10] ++ long_int_line) [] 0))
     = Ok (unexpected ValueError)
  /\ exit_code (unexpected ValidationError) = 1
  /\ exit_code (unexpected UnicodeDecodeError) = 1
  /\ exit_code (unexpected RecursionError) = 1
  /\ exit_code (unexpected ValueError) = 1.
Proof.
  split.
  { intros H.
    destruct (H [lit "list"] sample_config
                (sample_host (qlit "{'success': true, 'data': [1, 2]}") [] 0)
                _ _ (qlit "{'success': true, 'data': [1, 2]}")
                (qlit "{'success': true, 'data': [1, 2]}")
                [(lit "success", JBool true);
                 (lit "data", JArray [JInt 1; JInt 2])]
                (sample_completes _ _ _ _) eq_refl)
      as (r & Hr & Hcode & _).
    - exists [], []. split; [reflexivity|]. split; [reflexivity|].
      intros l [].
    - reflexivity.
    - vm_compute in Hr. injection Hr as <-. discriminate Hcode. }
  assert (S1 : forall l x, aborts sample_limits l = Some x ->
                           selected_as_stated sample_limits
                             [structured_line; l] structured_line).
  { intros l x Ha. exists [], [l]. split; [reflexivity|].
    split; [vm_compute; reflexivity|].
    intros y [<-|[]]. exact (aborts_no_qualifies _ _ _ Ha). }
  split; [vm_compute; reflexivity|].
  split; [vm_compute; reflexivity|].
  split; [exact (S1 _ _ deep_line_aborts)|].
  split.
  { apply (sample_aborts _ _ [structured_line] deep_line);
      [vm_compute; reflexivity | vm_compute; reflexivity
      | exact deep_line_aborts]. }
  split; [exact (S1 _ _ long_int_line_aborts)|].
  split.
  { apply (sample_aborts _ _ [structured_line] long_int_line);
      [vm_compute; reflexivity | vm_compute; reflexivity
      | exact long_int_line_aborts]. }
  split; [reflexivity|]. split; [reflexivity|]. split; reflexivity.
Qed.

(** ** Success without a structured line *)

(** C3, as amended. On an execution with exit status zero whose output
    decodes as UTF-8 and whose captured stdout has no qualifying line and
    no line on which [json.loads] fails with something that is not a
    decode error, the result is a success without data and without
    message, with exit code 0, and it keeps stdout and stderr with the
    leading and trailing whitespace removed. *)
Theorem plain_success_trimmed args config h out err o e :
  completes args config h out err 0 ->
  decode out = Some o -> decode err = Some e ->
  (forall l, In l (split_nl o) -> passed_over (limits h) l = true) ->
  snd (run_imi_command args config h)
  = Ok {| success := true; data := None; error := None;
          stdout := Some (strip o); stderr := Some (strip e);
          exit_code := 0 |}.
Proof.
  intros Hc Ho He Hno.
  rewrite (run_completed _ _ _ _ _ _ Hc).
  unfold parse_output, decode_utf8. rewrite Ho, He. cbn [bind].
  change (0 =? 0) with true. cbv iota.
  rewrite (parse_success_plain _ _ _ _ Hno). reflexivity.
Qed.

Lemma plain_success_trimmed_witness :
  snd (run_imi_command [lit "sync"] sample_config
         (sample_host (lit "plain text, no JSON
") (lit " note
") 0))
  = Ok {| success := true; data := None; error := None;
          stdout := Some (lit "plain text, no JSON");
          stderr := Some (lit "note");
          exit_code := 0 |}.
Proof.
  apply (plain_success_trimmed [lit "sync"] sample_config
           (sample_host (lit "plain text, no JSON
") (lit " note
") 0)
           (lit "plain text, no JSON
") (lit " note
") (lit "plain text, no JSON
") (lit " note
")).
  - apply sample_completes.
  - reflexivity.
  - reflexivity.
  - intros l [<-|[<-|[]]]; reflexivity.
Defined.

(** C3, refuted as stated: the newline that ends the captured stdout is
    not in the result; when stderr is not UTF-8 the result is a failure
    with exit code 1; and so it is when no line qualifies and a line that
    starts with a brace holds an integer beyond the limit of digits. *)
Lemma plain_success_not_as_stated :
  ~ plain_success_as_stated
  /\ snd (run_imi_command [lit "sync"] sample_config
            (sample_host (lit "plain text, no JSON
") [] 0))
     = Ok {| success := true; data := None; error := None;
             stdout := Some (lit "plain text, no JSON");
             stderr := Some []; exit_code := 0 |}
  /\ snd (run_imi_command [lit "sync"] sample_config
            (sample_host (lit "plain text, no JSON") [255] 0))
     = Ok (unexpected UnicodeDecodeError)
  /\ (forall l, In l (split_nl long_int_line) ->
                qualifies sample_limits l = false)
  /\ snd (run_imi_command [lit "sync"] sample_config
            (sample_host long_int_line [] 0))
     = Ok (unexpected ValueError).
Proof.
  split.
  { intros H.
    destruct (H [lit "sync"] sample_config
                (sample_host (lit "plain text, no JSON
") [] 0) _ _ (lit "plain text, no JSON
") [] (sample_completes _ _ _ _) eq_refl eq_refl)
      as (r & Hr & _ & _ & _ & Hout & _).
    - intros l [<-|[<-|[]]]; reflexivity.
    - vm_compute in Hr. injection Hr as <-. vm_compute in Hout.
      discriminate Hout. }
  split; [vm_compute; reflexivity|].
  split; [vm_compute; reflexivity|].
  split.
  - intros l Hl.
    replace (split_nl long_int_line) with [long_int_line] in Hl
      by (vm_compute; reflexivity).
    destruct Hl as [<-|[]].
    exact (aborts_no_qualifies _ _ _ long_int_line_aborts).
  - apply (sample_aborts _ _ [] long_int_line);
      [vm_compute; reflexivity | vm_compute; reflexivity
      | exact long_int_line_aborts].
Qed.

(** ** Failure with a non-zero exit status *)

Lemma command_failed_error stdout_str stderr_str rc :
  error (command_failed stdout_str stderr_str rc)
  = Some (if truthy stderr_str then stderr_str
          else if truthy stdout_str then stdout_str
          else lit "Command failed with exit code " ++ str_of_int rc).
Proof.
  unfold command_failed. cbn [error].
  destruct (truthy stderr_str) eqn:E; [rewrite E|]; reflexivity.
Qed.

(** C4, as amended. On an execution with a non-zero exit status whose
    output decodes as UTF-8, the result is a failure with the exit status
    copied; its message is the trimmed stderr if that is not empty, else
    the trimmed stdout if that is not empty, else the generated text with
    the exit status; the trimmed stdout and stderr are kept. *)
Theorem failure_message args config h out err o e rc :
  completes args config h out err rc -> rc <> 0 ->
  decode out = Some o -> decode err = Some e ->
  snd (run_imi_command args config h)
  = Ok {| success := false; data := None;
          error := Some (if truthy (strip e) then strip e
                         else if truthy (strip o) then strip o
                         else lit "Command failed with exit code "
                              ++ str_of_int rc);
          stdout := Some (strip o); stderr := Some (strip e);
          exit_code := rc |}.
Proof.
  intros Hc Hrc Ho He.
  rewrite (run_completed _ _ _ _ _ _ Hc).
  unfold parse_output, decode_utf8. rewrite Ho, He. cbn [bind].
  apply Z.eqb_neq in Hrc. rewrite Hrc. cbn [handlers].
  f_equal. unfold command_failed.
  destruct (truthy (strip e)) eqn:E; [rewrite E|]; reflexivity.
Qed.

Lemma failure_message_witness :
  snd (run_imi_command [lit "add"] sample_config
         (sample_host [] (lit "permission denied") 2))
  = Ok {| success := false; data := None;
          error := Some (lit "permission denied");
          stdout := Some []; stderr := Some (lit "permission denied");
          exit_code := 2 |}.
Proof.
  apply (failure_message [lit "add"] sample_config
           (sample_host [] (lit "permission denied") 2)
           [] (lit "permission denied") [] (lit "permission denied") 2).
  - apply sample_completes.
  - lia.
  - reflexivity.
  - reflexivity.
Defined.

(** C4, refuted as stated: with exit status 2 and a captured stdout that
    is a single newline, the message is the generated text, not the
    captured stdout; and with a stdout that is not UTF-8 the exit status
    of the child is replaced by 1. *)
Lemma failure_not_as_stated :
  ~ failure_as_stated
  /\ snd (run_imi_command [lit "add"] sample_config (sample_host [10] [] 2))
     = Ok {| success := false; data := None;
             error := Some (lit "Command failed with exit code 2");
             stdout := Some []; stderr := Some []; exit_code := 2 |}
  /\ snd (run_imi_command [lit "add"] sample_config (sample_host [255] [] 2))
     = Ok {| success := false; data := None;
             error := Some (lit "Unexpected error: "
                            ++ str_exn UnicodeDecodeError);
             stdout := None; stderr := None; exit_code := 1 |}.
Proof.
  split; [|split; reflexivity].
  intros H.
  destruct (H [lit "add"] sample_config (sample_host [255] [] 2) _ _ 2
              (sample_completes _ _ _ _))
    as (r & Hr & _ & Hcode & _); [lia|].
  vm_compute in Hr. injection Hr as <-. discriminate Hcode.
Qed.

(** ** Timeout *)

(** C5. When the child has not ended at the configured timeout, the
    result is a failure with exit code 124, its message names the
    configured number of seconds, and no output is in the result. *)
Theorem timeout_outcome args config h :
  exceeds_timeout args config h ->
  snd (run_imi_command args config h)
  = Ok {| success := false; data := None;
          error := Some (lit "Command timed out after "
                         ++ str_of_int (timeout_seconds config)
                         ++ lit " seconds");
          stdout := None; stderr := None; exit_code := 124 |}.
Proof.
  intros (wait & po & pe & Hs & Hw).
  destruct (run_spawned _ _ _ _ Hs) as [b ->]. rewrite Hw. reflexivity.
Qed.

Lemma sample_hangs args po pe :
  exceeds_timeout args sample_config (hanging_host po pe).
Proof.
  exists (fun _ => TimedOut po pe), po, pe. split; [|reflexivity].
  exists (lit "/usr/bin/imi"). repeat split.
Qed.

Lemma timeout_outcome_witness :
  snd (run_imi_command [lit "sync"] sample_config
         (hanging_host (lit "half a line") (lit "warn")))
  = Ok {| success := false; data := None;
          error := Some (lit "Command timed out after 30 seconds");
          stdout := None; stderr := None; exit_code := 124 |}.
Proof.
  apply (timeout_outcome [lit "sync"] sample_config
           (hanging_host (lit "half a line") (lit "warn"))).
  apply sample_hangs.
Defined.

(** ** Executable not found *)

(** C6. When the executable does not resolve, the only call made is the
    lookup: no process is created. The result is a failure with exit code
    127, a message that names the binary, and no output. *)
Theorem not_found_outcome args config h :
  shutil_which h (imi_binary_path config) = None ->
  run_imi_command args config h
  = ([Which (imi_binary_path config)],
     Ok {| success := false; data := None;
           error := Some (lit "iMi binary not found: "
                          ++ imi_binary_path config
                          ++ lit ". Ensure iMi is installed and in PATH.");
           stdout := None; stderr := None; exit_code := 127 |})
  /\ forall argv, ~ In (Exec argv) (fst (run_imi_command args config h)).
Proof.
  intros Hw. unfold run_imi_command. rewrite Hw. split; [reflexivity|].
  intros argv [H|[]]. discriminate H.
Qed.

Lemma not_found_outcome_witness :
  run_imi_command [lit "add"] sample_config bare_host
  = ([Which (lit "imi")],
     Ok {| success := false; data := None;
           error := Some (lit "iMi binary not found: imi. Ensure iMi is installed and in PATH.");
           stdout := None; stderr := None; exit_code := 127 |})
  /\ forall argv,
       ~ In (Exec argv) (fst (run_imi_command [lit "add"] sample_config bare_host)).
Proof.
  apply (not_found_outcome [lit "add"] sample_config bare_host).
  reflexivity.
Defined.

(** ** The results of the error paths *)

Lemma run_not_found args config h :
  shutil_which h (imi_binary_path config) = None ->
  snd (run_imi_command args config h) = Ok (not_found config).
Proof. intros Hw. unfold run_imi_command. rewrite Hw. reflexivity. Qed.

Lemma run_timed_out args config h :
  exceeds_timeout args config h ->
  run_imi_command args config h
  = (fst (run_imi_command args config h), Ok (timed_out config))
  /\ exists imi_binary,
       fst (run_imi_command args config h)
       = [Which (imi_binary_path config);
          Exec (imi_binary :: lit "--json" :: args);
          WaitFor (timeout_seconds config)].
Proof.
  intros (wait & po & pe & Hs & Hw).
  destruct (run_spawned _ _ _ _ Hs) as [b ->]. rewrite Hw.
  split; [reflexivity|]. exists b. reflexivity.
Qed.

Lemma run_spawn_raises args config h imi_binary e :
  resolves config h imi_binary ->
  create_subprocess_exec h (imi_binary :: lit "--json" :: args)
  = SpawnRaises e ->
  snd (run_imi_command args config h) = handlers config (Raise e).
Proof.
  intros [Hw Ht] Hs. unfold run_imi_command, run_process.
  rewrite Hw, Ht, Hs. reflexivity.
Qed.

Lemma lit_app_nonempty (w : string) (x : str) :
  w <> EmptyString -> lit w ++ x <> [].
Proof.
  destruct w as [|a w]; [congruence|]. intros _. unfold lit.
  cbn [list_ascii_of_string map app]. discriminate.
Qed.

Lemma invariant_not_found config : invariant (not_found config).
Proof.
  split; cbn [success error not_found]; [discriminate|].
  intros _. eexists. split; [reflexivity|].
  apply lit_app_nonempty. discriminate.
Qed.

Lemma invariant_timed_out config : invariant (timed_out config).
Proof.
  split; cbn [success error timed_out]; [discriminate|].
  intros _. eexists. split; [reflexivity|].
  apply lit_app_nonempty. discriminate.
Qed.

Lemma invariant_unexpected e : invariant (unexpected e).
Proof.
  split; cbn [success error unexpected]; [discriminate|].
  intros _. eexists. split; [reflexivity|].
  apply lit_app_nonempty. discriminate.
Qed.

Lemma truthy_nonempty (s : str) : truthy s = true -> s <> [].
Proof. destruct s; [discriminate|]. intros _. discriminate. Qed.

Lemma invariant_command_failed o e rc : invariant (command_failed o e rc).
Proof.
  split; cbn [success error command_failed]; [discriminate|].
  intros _. eexists. split; [reflexivity|].
  destruct (truthy (if truthy e then e else o)) eqn:E.
  - apply truthy_nonempty. exact E.
  - apply lit_app_nonempty. discriminate.
Qed.

Lemma handlers_raise config e :
  exists r, handlers config (Raise e) = Ok r
            /\ success r = false /\ invariant r.
Proof.
  destruct e; cbn [handlers]; eexists; (split; [reflexivity|]);
    (split; [reflexivity|]);
    first [apply invariant_timed_out | apply invariant_unexpected].
Qed.

Lemma handlers_total config x : exists r, handlers config x = Ok r.
Proof.
  destruct x as [r|e]; [exists r; reflexivity|].
  destruct (handlers_raise config e) as (r & H & _). eauto.
Qed.

Lemma qualifies_loads lim (line : str) :
  qualifies lim line = true ->
  exists d, loads lim (strip line) = Ok (JObject d).
Proof.
  unfold qualifies, qualifies_text. intros H. apply andb_prop in H.
  destruct H as [_ H].
  destruct (loads lim (strip line)) as [[]|]; try discriminate. eauto.
Qed.

(** ** The invariant of the result *)

(** The result of the output of a child that ended: it meets the
    invariant, or it is copied from a selected line. *)
Lemma parse_output_invariant lim config out err rc r :
  handlers config (parse_output lim out err rc) = Ok r ->
  invariant r
  \/ exists o line d,
       rc = 0 /\ decode out = Some o
       /\ last_qualifying lim (split_nl o) line
       /\ loads lim (strip line) = Ok (JObject d)
       /\ validate_bool (dict_get (lit "success") (JBool true) d)
          = Ok (success r)
       /\ validate_opt_str (dict_get (lit "error") JNull d) = Ok (error r).
Proof.
  unfold parse_output, decode_utf8.
  destruct (decode out) as [o|] eqn:Ho; cbn [bind];
    [|intros H; injection H as <-; left; apply invariant_unexpected].
  destruct (decode err) as [e|] eqn:He; cbn [bind];
    [|intros H; injection H as <-; left; apply invariant_unexpected].
  destruct (rc =? 0) eqn:Hrc.
  - apply Z.eqb_eq in Hrc. subst rc.
    destruct (find (fun l => negb (passed_over lim l)) (rev (split_nl o)))
      as [line|] eqn:F.
    + destruct (scan_found _ _ _ F) as [Hsel | [x Hab]].
      * pose proof Hsel as (pre & post & _ & Hq & _).
        destruct (qualifies_loads _ _ Hq) as [d Hd].
        rewrite (parse_success_selected lim o (strip e) 0 _ _ Hsel Hd).
        unfold CLIResult_of_json.
        destruct (validate_bool (dict_get (lit "success") (JBool true) d))
          as [b|y] eqn:Hb;
          [|intros H; injection H as <-; left; apply invariant_unexpected].
        destruct (validate_opt_dict (dict_get (lit "data") JNull d))
          as [pd|y] eqn:Hpd;
          [|intros H; injection H as <-; left; apply invariant_unexpected].
        destruct (validate_opt_str (dict_get (lit "error") JNull d))
          as [pe|y] eqn:Hpe;
          [|intros H; injection H as <-; left; apply invariant_unexpected].
        intros H. injection H as <-. right. exists o, line, d.
        cbn [success error]. auto 10.
      * destruct (parse_success_aborts lim o (strip e) 0 x Hab)
          as [-> [-> | ->]];
          intros H; injection H as <-; left; apply invariant_unexpected.
    + assert (Hno : forall l, In l (split_nl o) -> passed_over lim l = true).
      { intros l Hl. apply in_rev in Hl.
        pose proof (find_none_all _ _ F l Hl) as Hn. cbv beta in Hn.
        destruct (passed_over lim l); [reflexivity | discriminate Hn]. }
      rewrite (parse_success_plain lim o (strip e) 0 Hno).
      intros H. injection H as <-. left. split; cbn [success error].
      * reflexivity.
      * discriminate.
  - intros H. injection H as <-. left. apply invariant_command_failed.
Qed.

(** Every result meets the invariant or is copied from a selected line. *)
Lemma run_invariant args config h r :
  snd (run_imi_command args config h) = Ok r ->
  invariant r
  \/ exists out err o line d,
       completes args config h out err 0
       /\ decode out = Some o
       /\ last_qualifying (limits h) (split_nl o) line
       /\ loads (limits h) (strip line) = Ok (JObject d)
       /\ validate_bool (dict_get (lit "success") (JBool true) d)
          = Ok (success r)
       /\ validate_opt_str (dict_get (lit "error") JNull d) = Ok (error r).
Proof.
  destruct (shutil_which h (imi_binary_path config)) as [b|] eqn:Hw.
  2:{ rewrite (run_not_found _ _ _ Hw). intros H. injection H as <-.
      left. apply invariant_not_found. }
  destruct (truthy b) eqn:Ht.
  2:{ unfold run_imi_command. rewrite Hw, Ht. intros H. injection H as <-.
      left. apply invariant_not_found. }
  assert (Hres : resolves config h b) by (split; assumption).
  destruct (create_subprocess_exec h (b :: lit "--json" :: args))
    as [wait|x] eqn:Hs.
  2:{ rewrite (run_spawn_raises _ _ _ _ _ Hres Hs).
      destruct (handlers_raise config x) as (r' & -> & _ & Hinv).
      intros H. injection H as <-. left. exact Hinv. }
  assert (Hsp : spawns args config h wait) by (exists b; auto).
  destruct (run_spawned _ _ _ _ Hsp) as [b' ->]. cbn [snd].
  destruct (wait (timeout_seconds config)) as [out err rc|po pe|x] eqn:Hc.
  - intros H. destruct (parse_output_invariant _ _ _ _ _ _ H)
      as [Hinv|(o & line & d & -> & Ho & Hsel & Hd & Hb & He)].
    + left. exact Hinv.
    + right. exists out, err, o, line, d. repeat split; try assumption.
      exists wait. auto.
  - intros H. injection H as <-. left. apply invariant_timed_out.
  - destruct (handlers_raise config x) as (r' & -> & _ & Hinv).
    intros H. injection H as <-. left. exact Hinv.
Qed.

(** C2, as amended. Every result meets the invariant (no message on
    success, a non-empty message on failure) unless it is copied from a
    selected line: there [success] and [error] are the validated fields
    [success] and [error] of the line, each on its own. *)
Theorem invariant_unless_copied args config h r :
  snd (run_imi_command args config h) = Ok r ->
  invariant r
  \/ exists out err o line d,
       completes args config h out err 0
       /\ decode out = Some o
       /\ last_qualifying (limits h) (split_nl o) line
       /\ loads (limits h) (strip line) = Ok (JObject d)
       /\ validate_bool (dict_get (lit "success") (JBool true) d)
          = Ok (success r)
       /\ validate_opt_str (dict_get (lit "error") JNull d) = Ok (error r).
Proof. exact (run_invariant args config h r). Qed.

Lemma invariant_unless_copied_witness :
  let r := {| success := false; data := None; error := None;
              stdout := Some (qlit "{'success': false}"); stderr := None;
              exit_code := 0 |} in
  invariant r
  \/ exists out err o line d,
       completes [lit "sync"] sample_config
         (sample_host (qlit "{'success': false}") [] 0) out err 0
       /\ decode out = Some o
       /\ last_qualifying sample_limits (split_nl o) line
       /\ loads sample_limits (strip line) = Ok (JObject d)
       /\ validate_bool (dict_get (lit "success") (JBool true) d)
          = Ok (success r)
       /\ validate_opt_str (dict_get (lit "error") JNull d) = Ok (error r).
Proof.
  intros r.
  apply (invariant_unless_copied [lit "sync"] sample_config
           (sample_host (qlit "{'success': false}") [] 0) r).
  reflexivity.
Defined.

(** C2, refuted as stated: a selected line with [success] false and no
    field [error] gives a failure without message, and a selected line
    with [success] true and a field [error] gives a success with a
    message. *)
Lemma invariant_not_as_stated :
  ~ invariant_as_stated
  /\ snd (run_imi_command [lit "sync"] sample_config
            (sample_host (qlit "{'success': false}") [] 0))
     = Ok {| success := false; data := None; error := None;
             stdout := Some (qlit "{'success': false}"); stderr := None;
             exit_code := 0 |}
  /\ snd (run_imi_command [lit "sync"] sample_config
            (sample_host (qlit "{'success': true, 'error': 'x'}") [] 0))
     = Ok {| success := true; data := None; error := Some (lit "x");
             stdout := Some (qlit "{'success': true, 'error': 'x'}");
             stderr := None; exit_code := 0 |}.
Proof.
  split; [|split; reflexivity].
  intros H.
  destruct (H [lit "sync"] sample_config
              (sample_host (qlit "{'success': false}") [] 0) _ eq_refl)
    as [_ Hf].
  destruct (Hf eq_refl) as (m & Hm & _). discriminate Hm.
Qed.

(** ** The child on timeout *)

(** The child of a run, call by call. *)
Lemma child_after_spawned args config h wait :
  spawns args config h wait ->
  child_after args config h
  = match wait (timeout_seconds config) with
    | Completed _ _ _ => Reclaimed
    | _ => Alive wait
    end.
Proof.
  intros Hs. pose proof Hs as (b & [Hw Ht] & Hx).
  unfold child_after, run_imi_command, run_process. rewrite Hw, Ht, Hx.
  destruct (wait (timeout_seconds config)) eqn:Hc;
    cbn [fst fold_left child_step]; rewrite Hx; cbn [child_step];
    rewrite Hc; reflexivity.
Qed.

(** When the child ends within the timeout, [communicate()] has waited
    for it: whatever branch of the extraction runs, its handle is
    reclaimed. *)
Lemma completed_child_reclaimed args config h out err rc :
  completes args config h out err rc ->
  child_after args config h = Reclaimed.
Proof.
  intros (wait & Hs & Hc). rewrite (child_after_spawned _ _ _ _ Hs), Hc.
  reflexivity.
Qed.




(** ** No exception leaves the wrapper *)

Lemma run_total args config h :
  exists r, snd (run_imi_command args config h) = Ok r.
Proof.
  unfold run_imi_command.
  destruct (shutil_which h (imi_binary_path config)) as [b|];
    [|eexists; reflexivity].
  destruct (truthy b); [|eexists; reflexivity].
  destruct (run_process (b :: lit "--json" :: args) config h) as [calls x].
  cbn [snd]. apply handlers_total.
Qed.

Lemma well_formed_not_found config : well_formed_failure (not_found config).
Proof.
  repeat split; try discriminate; apply invariant_not_found.
Qed.

Lemma well_formed_timed_out config : well_formed_failure (timed_out config).
Proof.
  repeat split; try discriminate; apply invariant_timed_out.
Qed.

Lemma well_formed_unexpected e : well_formed_failure (unexpected e).
Proof.
  repeat split; try discriminate; apply invariant_unexpected.
Qed.

Lemma well_formed_command_failed o e rc :
  rc <> 0 -> well_formed_failure (command_failed o e rc).
Proof.
  intros H. split; [reflexivity|]. split; [reflexivity|].
  split; [exact H | apply invariant_command_failed].
Qed.

Lemma handlers_raise_well_formed config e :
  exists r, handlers config (Raise e) = Ok r /\ well_formed_failure r.
Proof.
  destruct e; cbn [handlers]; eexists; (split; [reflexivity|]);
    first [apply well_formed_timed_out | apply well_formed_unexpected].
Qed.

Lemma parse_output_failure lim config out err rc :
  rc <> 0 \/ decode out = None \/ decode err = None ->
  exists r, handlers config (parse_output lim out err rc) = Ok r
            /\ well_formed_failure r.
Proof.
  intros H. unfold parse_output, decode_utf8.
  destruct (decode out) as [o|] eqn:Ho; cbn [bind];
    [|eexists; split; [reflexivity | apply well_formed_unexpected]].
  destruct (decode err) as [e|] eqn:He; cbn [bind];
    [|eexists; split; [reflexivity | apply well_formed_unexpected]].
  destruct H as [H|[H|H]]; try discriminate H.
  pose proof H as Hrc. apply Z.eqb_neq in H. rewrite H. eexists.
  split; [reflexivity | apply well_formed_command_failed; exact Hrc].
Qed.

(** Each class of error gives a well-formed failure. *)
Lemma occurs_failure args config h c r :
  occurs args config h c ->
  snd (run_imi_command args config h) = Ok r -> well_formed_failure r.
Proof.
  intros [Hw|Hx|b e Hres Hs|out err rc Hc Hrc|out err rc Hc Hd
          |out err o e x Hc Ho He Hab].
  - rewrite (run_not_found _ _ _ Hw). intros H. injection H as <-.
    apply well_formed_not_found.
  - destruct (run_timed_out _ _ _ Hx) as [-> _]. intros H.
    injection H as <-. apply well_formed_timed_out.
  - rewrite (run_spawn_raises _ _ _ _ _ Hres Hs).
    destruct (handlers_raise_well_formed config e) as (r' & -> & Hf).
    intros H. injection H as <-. exact Hf.
  - rewrite (run_completed _ _ _ _ _ _ Hc).
    destruct (parse_output_failure (limits h) config out err rc
                (or_introl Hrc)) as (r' & -> & Hf).
    intros H. injection H as <-. exact Hf.
  - rewrite (run_completed _ _ _ _ _ _ Hc).
    destruct (parse_output_failure (limits h) config out err rc
                (or_intror Hd)) as (r' & -> & Hf).
    intros H. injection H as <-. exact Hf.
  - rewrite (run_aborts _ _ _ _ _ _ _ _ Hc Ho He Hab).
    intros H. injection H as <-. apply well_formed_unexpected.
Qed.

(** C8, as amended. On every input the wrapper returns a result and
    raises nothing: whatever the lookup, the creation of the child and the
    wait do, and whatever bytes the child wrote. Each of the five classes
    of error gives a well-formed failure: [success] false, no data, an
    exit code that is not zero and a message that is not empty. Every
    other result meets the invariant of the data model too, unless it is
    copied from a selected line: there [success] and [error] are the
    validated fields of the line, each on its own. *)
Theorem never_raises args config h :
  exists r,
    snd (run_imi_command args config h) = Ok r
    /\ (forall c, occurs args config h c -> well_formed_failure r)
    /\ (invariant r
        \/ exists out err o line d,
             completes args config h out err 0
             /\ decode out = Some o
             /\ last_qualifying (limits h) (split_nl o) line
             /\ loads (limits h) (strip line) = Ok (JObject d)
             /\ validate_bool (dict_get (lit "success") (JBool true) d)
                = Ok (success r)
             /\ validate_opt_str (dict_get (lit "error") JNull d)
                = Ok (error r)).
Proof.
  destruct (run_total args config h) as [r Hr]. exists r.
  split; [exact Hr|]. split.
  - intros c Hc. exact (occurs_failure _ _ _ _ _ Hc Hr).
  - exact (run_invariant _ _ _ _ Hr).
Qed.

(** C8, refuted as stated: a selected line with [success] false and no
    field [error] gives a result that is not well formed, a failure
    without message and with exit code 0. *)
Lemma well_formed_not_as_stated :
  ~ well_formed_as_stated
  /\ snd (run_imi_command [lit "list"] sample_config
            (sample_host (qlit "{'success': false, 'data': {}}") [] 0))
     = Ok {| success := false; data := Some []; error := None;
             stdout := Some (qlit "{'success': false, 'data': {}}");
             stderr := None; exit_code := 0 |}.
Proof.
  split; [|reflexivity].
  intros H.
  destruct (H [lit "list"] sample_config
              (sample_host (qlit "{'success': false, 'data': {}}") [] 0))
    as (r & Hr & _ & Hf).
  vm_compute in Hr. injection Hr as <-.
  destruct (Hf eq_refl) as (m & Hm & _). discriminate Hm.
Qed.

(** ** The captured stderr *)

(** C9, at the failing input: the child ends with status zero, writes a
    structured line to stdout and a warning to stderr; the warning is not
    in the result, while the result of the plain success keeps it. *)
Theorem structured_success_drops_stderr :
  (exists r,
     snd (run_imi_command [lit "add"] sample_config
            (sample_host structured_line (lit "warning: slow disk") 0))
     = Ok r
     /\ success r = true /\ stderr r = None)
  /\ exists r,
       snd (run_imi_command [lit "add"] sample_config
              (sample_host (lit "created") (lit "warning: slow disk") 0))
       = Ok r
       /\ success r = true /\ stderr r = Some (lit "warning: slow disk").
Proof. split; eexists; repeat split. Qed.

(** The sentence of the data model fails on that input. *)
Lemma stderr_not_retained : ~ stderr_retained_as_stated.
Proof.
  intros H.
  destruct (H [lit "add"] sample_config
              (sample_host structured_line (lit "warning: slow disk") 0)
              _ _ _ (lit "warning: slow disk")
              (sample_completes _ _ _ _) eq_refl eq_refl)
    as (r & Hr & He).
  vm_compute in Hr. injection Hr as <-. discriminate He.
Qed.

(** ** [create_worktree] on a plain success *)

Lemma create_worktree_result config h name worktree_type repo r :
  snd (run_imi_command (create_worktree_args name worktree_type repo)
         config h) = Ok r ->
  snd (create_worktree (Some config) h name worktree_type repo)
  = Ok (worktree_result name r).
Proof.
  unfold create_worktree. cbn [get_config].
  destruct (run_imi_command _ config h) as [calls res]. cbn [snd].
  intros ->. reflexivity.
Qed.

(** A success of a run with exit status zero in whose stdout no line
    qualifies is the plain success: every line was passed over. *)
Lemma success_without_line args config h out err o r :
  completes args config h out err 0 ->
  decode out = Some o ->
  (forall l, In l (split_nl o) -> qualifies (limits h) l = false) ->
  snd (run_imi_command args config h) = Ok r ->
  success r = true ->
  exists e,
    decode err = Some e
    /\ (forall l, In l (split_nl o) -> passed_over (limits h) l = true)
    /\ r = {| success := true; data := None; error := None;
              stdout := Some (strip o); stderr := Some (strip e);
              exit_code := 0 |}.
Proof.
  intros Hc Ho Hno Hr Hs.
  rewrite (run_completed _ _ _ _ _ _ Hc) in Hr.
  unfold parse_output, decode_utf8 in Hr. rewrite Ho in Hr.
  cbn [bind] in Hr.
  destruct (decode err) as [e|] eqn:He; cbn [bind] in Hr;
    [|injection Hr as <-; discriminate Hs].
  change (0 =? 0) with true in Hr. cbv iota in Hr.
  exists e. split; [reflexivity|].
  destruct (find (fun l => negb (passed_over (limits h) l))
              (rev (split_nl o))) as [line|] eqn:F.
  - exfalso. destruct (scan_found _ _ _ F) as [Hsel | [x Hab]].
    + destruct Hsel as (pre & post & Hl & Hq & _).
      rewrite (Hno line) in Hq; [discriminate Hq|].
      rewrite Hl. apply in_or_app. right. left. reflexivity.
    + destruct (parse_success_aborts (limits h) o (strip e) 0 x Hab)
        as [Hp [-> | ->]]; rewrite Hp in Hr; injection Hr as <-;
        discriminate Hs.
  - assert (Hall : forall l, In l (split_nl o) ->
                             passed_over (limits h) l = true).
    { intros l Hl. apply in_rev in Hl.
      pose proof (find_none_all _ _ F l Hl) as Hn. cbv beta in Hn.
      destruct (passed_over (limits h) l); [reflexivity | discriminate Hn]. }
    split; [exact Hall|].
    rewrite (parse_success_plain _ _ _ _ Hall) in Hr.
    injection Hr as <-. reflexivity.
Qed.

(** C10. When the command of [create_worktree] ends with status zero,
    writes no structured line, and the wrapper returns a successful
    result, that result has no data and the tool reports a failure:
    [success] false, the message [Failed to create worktree '<name>'],
    the error [Unknown error]. *)
Theorem create_worktree_plain_success_fails
    config h name worktree_type repo out err o r :
  completes (create_worktree_args name worktree_type repo) config h
    out err 0 ->
  decode out = Some o ->
  (forall l, In l (split_nl o) -> qualifies (limits h) l = false) ->
  snd (run_imi_command (create_worktree_args name worktree_type repo)
         config h) = Ok r ->
  success r = true ->
  data r = None /\ error r = None /\ exit_code r = 0
  /\ snd (create_worktree (Some config) h name worktree_type repo)
     = Ok {| wr_success := false;
             wr_message := lit "Failed to create worktree '" ++ name
                           ++ lit "'";
             wr_data := None;
             wr_error := Some (lit "Unknown error") |}.
Proof.
  intros Hc Ho Hno Hr Hs.
  destruct (success_without_line _ _ _ _ _ _ _ Hc Ho Hno Hr Hs)
    as (e & _ & _ & ->).
  repeat split. rewrite (create_worktree_result _ _ _ _ _ _ Hr). reflexivity.
Qed.

Lemma create_worktree_plain_success_fails_witness :
  let r := {| success := true; data := None; error := None;
              stdout := Some (lit "Created worktree"); stderr := Some [];
              exit_code := 0 |} in
  data r = None /\ error r = None /\ exit_code r = 0
  /\ snd (create_worktree (Some sample_config)
            (sample_host (lit "Created worktree
") [] 0) (lit "login") (lit "feat") None)
     = Ok {| wr_success := false;
             wr_message := lit "Failed to create worktree 'login'";
             wr_data := None;
             wr_error := Some (lit "Unknown error") |}.
Proof.
  intros r.
  apply (create_worktree_plain_success_fails sample_config
           (sample_host (lit "Created worktree
") [] 0) (lit "login") (lit "feat") None
           (lit "Created worktree
") [] (lit "Created worktree
") r).
  - apply sample_completes.
  - reflexivity.
  - intros l [<-|[<-|[]]]; reflexivity.
  - reflexivity.
  - reflexivity.
Defined.

(** * Further properties of the wrapper *)

(** ** The cases of the result *)

Lemma parse_output_cases args config h out err rc r :
  completes args config h out err rc ->
  handlers config (parse_output (limits h) out err rc) = Ok r ->
  arises args config h r.
Proof.
  intros Hc. unfold parse_output, decode_utf8.
  destruct (decode out) as [o|] eqn:Ho; cbn [bind];
    [|intros H; injection H as <-; constructor].
  destruct (decode err) as [e|] eqn:He; cbn [bind];
    [|intros H; injection H as <-; constructor].
  destruct (rc =? 0) eqn:Hrc.
  - apply Z.eqb_eq in Hrc. subst rc.
    destruct (find (fun l => negb (passed_over (limits h) l))
                (rev (split_nl o))) as [line|] eqn:F.
    + destruct (scan_found _ _ _ F) as [Hsel | [x Hab]].
      * pose proof Hsel as (pre & post & _ & Hq & _).
        destruct (qualifies_loads _ _ Hq) as [kv Hkv].
        rewrite (parse_success_selected _ o (strip e) 0 _ _ Hsel Hkv).
        unfold CLIResult_of_json.
        destruct (validate_bool (dict_get (lit "success") (JBool true) kv))
          as [b|y] eqn:Hb;
          [|intros H; injection H as <-; constructor].
        destruct (validate_opt_dict (dict_get (lit "data") JNull kv))
          as [pd|y] eqn:Hpd;
          [|intros H; injection H as <-; constructor].
        destruct (validate_opt_str (dict_get (lit "error") JNull kv))
          as [pe|y] eqn:Hpe;
          [|intros H; injection H as <-; constructor].
        intros H. injection H as <-.
        exact (arises_line _ _ _ _ _ _ _ _ _ _ _ _
                 Hc Ho He Hsel Hkv Hb Hpd Hpe).
      * destruct (parse_success_aborts (limits h) o (strip e) 0 x Hab)
          as [-> [-> | ->]];
          intros H; injection H as <-; constructor.
    + assert (Hno : forall l, In l (split_nl o) ->
                              passed_over (limits h) l = true).
      { intros l Hl. apply in_rev in Hl.
        pose proof (find_none_all _ _ F l Hl) as Hn. cbv beta in Hn.
        destruct (passed_over (limits h) l);
          [reflexivity | discriminate Hn]. }
      rewrite (parse_success_plain _ o (strip e) 0 Hno).
      intros H. injection H as <-.
      exact (arises_plain _ _ _ _ _ _ _ Hc Ho He Hno).
  - apply Z.eqb_neq in Hrc. intros H. injection H as <-.
    exact (arises_failed _ _ _ _ _ _ _ _ Hc Ho He Hrc).
Qed.

Lemma handlers_raise_cases args config h e r :
  handlers config (Raise e) = Ok r -> arises args config h r.
Proof. destruct e; intros H; injection H as <-; constructor. Qed.

(** Every result of the wrapper arises in one of the six ways. *)
Lemma run_cases args config h r :
  snd (run_imi_command args config h) = Ok r -> arises args config h r.
Proof.
  destruct (shutil_which h (imi_binary_path config)) as [b|] eqn:Hw.
  2:{ rewrite (run_not_found _ _ _ Hw). intros H. injection H as <-.
      constructor. }
  destruct (truthy b) eqn:Ht.
  2:{ unfold run_imi_command. rewrite Hw, Ht. intros H. injection H as <-.
      constructor. }
  assert (Hres : resolves config h b) by (split; assumption).
  destruct (create_subprocess_exec h (b :: lit "--json" :: args))
    as [wait|x] eqn:Hs.
  2:{ rewrite (run_spawn_raises _ _ _ _ _ Hres Hs).
      apply handlers_raise_cases. }
  assert (Hsp : spawns args config h wait) by (exists b; auto).
  destruct (run_spawned _ _ _ _ Hsp) as [b' ->]. cbn [snd].
  destruct (wait (timeout_seconds config)) as [out err rc|po pe|x] eqn:Hc.
  - apply parse_output_cases. exists wait. auto.
  - intros H. injection H as <-. constructor.
  - apply handlers_raise_cases.
Qed.

(** ** Trimming twice *)

Lemma lstrip_idem (s : str) : lstrip (lstrip s) = lstrip s.
Proof.
  induction s as [|c r IH]; [reflexivity|]. cbn [lstrip].
  destruct (isspace c) eqn:Hc; [exact IH|]. cbn [lstrip]. rewrite Hc.
  reflexivity.
Qed.

Lemma rstrip_idem (s : str) : rstrip (rstrip s) = rstrip s.
Proof. unfold rstrip. rewrite rev_involutive, lstrip_idem. reflexivity. Qed.

Lemma strip_idem (s : str) : strip (strip s) = strip s.
Proof.
  unfold strip. rewrite (lstrip_rstrip (lstrip s)), lstrip_idem, rstrip_idem.
  reflexivity.
Qed.

(** ** The process and its arguments *)

(** X1. A run creates at most one process, and only for a binary that
    resolved; its arguments are the resolved path, then [--json], then the
    arguments of the caller in their order. *)
Theorem one_process_with_json_flag args config h :
  (List.length (filter is_exec (fst (run_imi_command args config h))) <= 1)%nat
  /\ forall argv,
       In (Exec argv) (fst (run_imi_command args config h)) ->
       exists imi_binary,
         resolves config h imi_binary
         /\ argv = imi_binary :: lit "--json" :: args.
Proof.
  unfold run_imi_command, run_process.
  destruct (shutil_which h (imi_binary_path config)) as [b|] eqn:Hw.
  2:{ split; [cbn; lia|]. intros argv [H|[]]. discriminate H. }
  destruct (truthy b) eqn:Ht.
  2:{ split; [cbn; lia|]. intros argv [H|[]]. discriminate H. }
  assert (Hres : resolves config h b) by (split; reflexivity || assumption).
  destruct (create_subprocess_exec h (b :: lit "--json" :: args))
    as [wait|x].
  - destruct (wait (timeout_seconds config)); cbn [fst];
      (split; [cbn; lia|]);
      intros argv [H|[H|[H|[]]]]; try discriminate H;
      injection H as <-; exists b; (split; [exact Hres | reflexivity]).
  - cbn [fst]. split; [cbn; lia|].
    intros argv [H|[H|[]]]; try discriminate H.
    injection H as <-. exists b. split; [exact Hres | reflexivity].
Qed.

(** X6. When the creation of the process raises (anything but a timeout
    error), the wait is never started and the result is the failure with
    exit code 1, the message [Unexpected error: ] followed by the text of
    the exception, and no output. *)
Theorem spawn_failure_outcome args config h imi_binary e :
  resolves config h imi_binary ->
  create_subprocess_exec h (imi_binary :: lit "--json" :: args)
  = SpawnRaises e ->
  e <> TimeoutError ->
  run_imi_command args config h
  = ([Which (imi_binary_path config);
      Exec (imi_binary :: lit "--json" :: args)],
     Ok {| success := false; data := None;
           error := Some (lit "Unexpected error: " ++ str_exn e);
           stdout := None; stderr := None; exit_code := 1 |}).
Proof.
  intros [Hw Ht] Hs Hne. unfold run_imi_command, run_process.
  rewrite Hw, Ht, Hs. destruct e; try reflexivity. congruence.
Qed.

Lemma spawn_failure_outcome_witness :
  run_imi_command [lit "sync"] sample_config
    (failing_host (HostError (lit "Permission denied")))
  = ([Which (lit "imi");
      Exec [lit "/usr/bin/imi"; lit "--json"; lit "sync"]],
     Ok {| success := false; data := None;
           error := Some (lit "Unexpected error: Permission denied");
           stdout := None; stderr := None; exit_code := 1 |}).
Proof.
  apply (spawn_failure_outcome [lit "sync"] sample_config
           (failing_host (HostError (lit "Permission denied")))
           (lit "/usr/bin/imi") (HostError (lit "Permission denied"))).
  - split; reflexivity.
  - reflexivity.
  - discriminate.
Defined.

(** ** What a result tells about the run *)

(** X2. A result with [success] true comes only from a child that ended
    in time with exit status zero and whose output decodes: the missing
    binary, the timeout, a failure to start, a non-zero status and
    undecodable output never give a success. *)
Theorem success_needs_clean_exit args config h r :
  snd (run_imi_command args config h) = Ok r ->
  success r = true ->
  exists out err o e,
    completes args config h out err 0
    /\ decode out = Some o /\ decode err = Some e.
Proof.
  intros Hr Hs. destruct (run_cases _ _ _ _ Hr); try discriminate Hs; eauto 8.
Qed.

Lemma success_needs_clean_exit_witness :
  exists out err o e,
    completes [lit "sync"] sample_config (sample_host (lit "done") [] 0)
      out err 0
    /\ decode out = Some o /\ decode err = Some e.
Proof.
  apply (success_needs_clean_exit [lit "sync"] sample_config
           (sample_host (lit "done") [] 0)
           {| success := true; data := None; error := None;
              stdout := Some (lit "done"); stderr := Some [];
              exit_code := 0 |}).
  - reflexivity.
  - reflexivity.
Defined.

Lemma validate_opt_dict_some v d :
  validate_opt_dict v = Ok (Some d) -> v = JObject d.
Proof. destruct v; intros H; try discriminate H. injection H as <-. reflexivity. Qed.

Lemma dict_get_object k kv d :
  dict_get k JNull kv = JObject d -> dict_lookup k kv = Some (JObject d).
Proof.
  unfold dict_get. destruct (dict_lookup k kv); [congruence|discriminate].
Qed.

(** X3. A result has data only when a line was selected: the data are the
    object under the key [data] of that line. *)
Theorem data_from_selected_line args config h r d :
  snd (run_imi_command args config h) = Ok r ->
  data r = Some d ->
  exists out err o line kv,
    completes args config h out err 0
    /\ decode out = Some o
    /\ last_qualifying (limits h) (split_nl o) line
    /\ loads (limits h) (strip line) = Ok (JObject kv)
    /\ dict_lookup (lit "data") kv = Some (JObject d).
Proof.
  intros Hr Hd.
  destruct (run_cases _ _ _ _ Hr)
    as [| | | | |out err o e line kv b pd pe Hc Ho He Hsel Hkv Hb Hpd Hpe];
    try discriminate Hd.
  cbn [data] in Hd. subst pd.
  exists out, err, o, line, kv. repeat split; try assumption.
  apply dict_get_object, validate_opt_dict_some. exact Hpd.
Qed.

Lemma data_from_selected_line_witness :
  exists out err o line kv,
    completes [lit "add"] sample_config
      (sample_host banner_stdout (lit "warn") 0) out err 0
    /\ decode out = Some o
    /\ last_qualifying sample_limits (split_nl o) line
    /\ loads sample_limits (strip line) = Ok (JObject kv)
    /\ dict_lookup (lit "data") kv
       = Some (JObject [(lit "path", JString (lit "/x"))]).
Proof.
  apply (data_from_selected_line [lit "add"] sample_config
           (sample_host banner_stdout (lit "warn") 0)
           {| success := true;
              data := Some [(lit "path", JString (lit "/x"))];
              error := None; stdout := Some (strip banner_stdout);
              stderr := None; exit_code := 0 |}).
  - reflexivity.
  - reflexivity.
Defined.

(** X4. The stdout and the stderr of a result are never made up and never
    raw: each is the decoded output of a child that ended, trimmed, and
    trimming it again changes nothing. *)
Theorem retained_output_is_trimmed args config h r :
  snd (run_imi_command args config h) = Ok r ->
  (forall s, stdout r = Some s ->
     strip s = s
     /\ exists out err rc o,
          completes args config h out err rc
          /\ decode out = Some o /\ s = strip o)
  /\ (forall s, stderr r = Some s ->
        strip s = s
        /\ exists out err rc e,
             completes args config h out err rc
             /\ decode err = Some e /\ s = strip e).
Proof.
  intros Hr.
  destruct (run_cases _ _ _ _ Hr); (split; intros s Hs);
    try discriminate Hs; injection Hs as <-;
    (split; [apply strip_idem | eauto 8]).
Qed.

Lemma retained_output_is_trimmed_witness :
  let r := {| success := false; data := None;
              error := Some (lit "fatal: no repo");
              stdout := Some (lit "usage"); stderr := Some (lit "fatal: no repo");
              exit_code := 3 |} in
  (forall s, stdout r = Some s ->
     strip s = s
     /\ exists out err rc o,
          completes [lit "sync"] sample_config
            (sample_host (lit " usage
") (lit "fatal: no repo
") 3) out err rc
          /\ decode out = Some o /\ s = strip o)
  /\ (forall s, stderr r = Some s ->
        strip s = s
        /\ exists out err rc e,
             completes [lit "sync"] sample_config
               (sample_host (lit " usage
") (lit "fatal: no repo
") 3) out err rc
             /\ decode err = Some e /\ s = strip e).
Proof.
  intros r.
  apply (retained_output_is_trimmed [lit "sync"] sample_config
           (sample_host (lit " usage
") (lit "fatal: no repo
") 3) r).
  reflexivity.
Defined.

(** X5. The exit code of a result is the exit status of the child that
    ended, or one of 127, 124 and 1. *)
Theorem exit_code_sources args config h r :
  snd (run_imi_command args config h) = Ok r ->
  exit_code r = 127 \/ exit_code r = 124 \/ exit_code r = 1
  \/ exists out err, completes args config h out err (exit_code r).
Proof.
  intros Hr. destruct (run_cases _ _ _ _ Hr); cbn [exit_code];
    try (left; reflexivity);
    try (right; left; reflexivity);
    try (right; right; left; reflexivity);
    right; right; right; eauto.
Qed.

Lemma exit_code_sources_witness :
  3 = 127 \/ 3 = 124 \/ 3 = 1
  \/ exists out err,
       completes [lit "sync"] sample_config
         (sample_host [] (lit "fatal") 3) out err 3.
Proof.
  apply (exit_code_sources [lit "sync"] sample_config
           (sample_host [] (lit "fatal") 3)
           {| success := false; data := None; error := Some (lit "fatal");
              stdout := Some []; stderr := Some (lit "fatal");
              exit_code := 3 |}).
  reflexivity.
Defined.

(** X7. A failure with exit code 0 is always the word of the command
    itself: a line was selected and its field [success] is read as false.
    The handler of [json.JSONDecodeError] around the extraction never
    answers. *)
Theorem zero_exit_failure_from_line args config h r :
  snd (run_imi_command args config h) = Ok r ->
  success r = false -> exit_code r = 0 ->
  exists out err o line kv,
    completes args config h out err 0
    /\ decode out = Some o
    /\ last_qualifying (limits h) (split_nl o) line
    /\ loads (limits h) (strip line) = Ok (JObject kv)
    /\ validate_bool (dict_get (lit "success") (JBool true) kv) = Ok false
    /\ stderr r = None.
Proof.
  intros Hr Hs Hx.
  destruct (run_cases _ _ _ _ Hr)
    as [| | |out err rc o e Hc Ho He Hrc|
        |out err o e line kv b pd pe Hc Ho He Hsel Hkv Hb Hpd Hpe];
    try discriminate Hs; try discriminate Hx.
  - cbn [exit_code command_failed] in Hx. contradiction.
  - cbn [success] in Hs. subst b.
    exists out, err, o, line, kv. repeat split; assumption.
Qed.

Lemma zero_exit_failure_from_line_witness :
  exists out err o line kv,
    completes [lit "sync"] sample_config
      (sample_host (qlit "{'success': false, 'error': 'locked'}") [] 0)
      out err 0
    /\ decode out = Some o
    /\ last_qualifying sample_limits (split_nl o) line
    /\ loads sample_limits (strip line) = Ok (JObject kv)
    /\ validate_bool (dict_get (lit "success") (JBool true) kv) = Ok false
    /\ stderr {| success := false; data := None;
                 error := Some (lit "locked");
                 stdout := Some (qlit "{'success': false, 'error': 'locked'}");
                 stderr := None; exit_code := 0 |} = None.
Proof.
  apply (zero_exit_failure_from_line [lit "sync"] sample_config
           (sample_host (qlit "{'success': false, 'error': 'locked'}") [] 0)
           {| success := false; data := None;
              error := Some (lit "locked");
              stdout := Some (qlit "{'success': false, 'error': 'locked'}");
              stderr := None; exit_code := 0 |}).
  - reflexivity.
  - reflexivity.
  - reflexivity.
Defined.

(** X8. Trimming the whole stdout before it is split (line 52) does not
    change what the loop over the lines finds: the scan of the lines of
    the trimmed text and the scan of the lines of the captured text give
    the same answer. *)
Theorem trimming_keeps_scan (lim : Limits) (o : str) :
  find_json_line lim (rev (split_nl (strip o)))
  = find_json_line lim (rev (split_nl o)).
Proof. rewrite !find_json_line_find, scan_trim. reflexivity. Qed.

(** * Properties of the tools *)

(** ** Every tool is the wrapper followed by its result *)

Lemma run_tool_run config h args build :
  run_tool (Some config) h args build
  = (fst (run_imi_command args config h),
     result <- snd (run_imi_command args config h) ;; Ok (build result)).
Proof.
  unfold run_tool. cbn [get_config].
  destruct (run_imi_command args config h). reflexivity.
Qed.

(** [str(pr_number)] on a number that can be printed. *)
Lemma py_str_int_printable lim pr_number repo :
  printable lim (CreateReviewWorktree pr_number repo) = true ->
  py_str_int lim pr_number = Ok (str_of_int pr_number).
Proof.
  cbn [printable]. unfold py_str_int.
  destruct (too_many_digits lim _); [discriminate | reflexivity].
Qed.

Lemma py_str_int_unprintable lim pr_number repo :
  printable lim (CreateReviewWorktree pr_number repo) = false ->
  py_str_int lim pr_number = Raise ValueError.
Proof.
  cbn [printable]. unfold py_str_int.
  destruct (too_many_digits lim _); [reflexivity | discriminate].
Qed.

Lemma call_tool_run_tool _config h t :
  printable (limits h) t = true ->
  call_tool _config h t = run_tool _config h (tool_args t) (tool_result t).
Proof.
  destruct t; intros Hp; try reflexivity.
  cbn [call_tool]. unfold create_review_worktree.
  rewrite (py_str_int_printable _ _ _ Hp).
  destruct _config; reflexivity.
Qed.

Lemma call_tool_run config h t :
  printable (limits h) t = true ->
  call_tool (Some config) h t
  = (fst (run_imi_command (tool_args t) config h),
     result <- snd (run_imi_command (tool_args t) config h) ;;
     Ok (tool_result t result)).
Proof. intros Hp. rewrite (call_tool_run_tool _ _ _ Hp). apply run_tool_run. Qed.

Lemma call_tool_result config h t r :
  printable (limits h) t = true ->
  snd (run_imi_command (tool_args t) config h) = Ok r ->
  snd (call_tool (Some config) h t) = Ok (tool_result t r).
Proof.
  intros Hp H. rewrite (call_tool_run _ _ _ Hp). cbn [snd]. rewrite H.
  reflexivity.
Qed.

(** Beyond the limit of digits [create_review_worktree] raises at line
    102, before the command: no call is made. *)
Lemma call_tool_unprintable config h t :
  printable (limits h) t = false ->
  call_tool (Some config) h t = ([], Raise ValueError).
Proof.
  destruct t; intros Hp; try discriminate Hp.
  cbn [call_tool]. unfold create_review_worktree. cbn [get_config].
  rewrite (py_str_int_unprintable _ _ _ Hp). reflexivity.
Qed.

Lemma str_or_nonempty x : str_or x (lit "Unknown error") <> [].
Proof.
  unfold str_or. destruct x as [s|]; [|discriminate].
  destruct (truthy s) eqn:E; [|discriminate].
  apply truthy_nonempty. exact E.
Qed.

Lemma tool_failure_invariant msg x :
  tool_invariant
    {| wr_success := false; wr_message := msg; wr_data := None;
       wr_error := Some (str_or x (lit "Unknown error")) |}.
Proof.
  split; cbn [wr_success wr_error wr_data]; intros H; [discriminate H|].
  split; [reflexivity|]. eexists. split; [reflexivity|].
  apply str_or_nonempty.
Qed.

Lemma tool_success_invariant msg kv d :
  tool_invariant
    {| wr_success := true; wr_message := msg; wr_data := Some (kv :: d);
       wr_error := None |}.
Proof.
  split; cbn [wr_success wr_error wr_data]; intros H; [|discriminate H].
  split; [reflexivity|]. eauto.
Qed.

Lemma tool_result_invariant t r : tool_invariant (tool_result t r).
Proof.
  unfold tool_result, lenient_result, strict_result, data_or_output,
    output_dict.
  destruct (lenient t), (success r); cbn [andb];
    try apply tool_failure_invariant;
    destruct (data r) as [[|kv d]|]; cbn [data_truthy];
    first [apply tool_success_invariant | apply tool_failure_invariant].
Qed.

(** ** What every tool returns *)

(** X9. With the configuration set, every tool whose arguments can be
    printed returns a result and raises nothing, whatever the host does; a
    success has data that is not empty and no error, a failure has no
    data and an error that is not empty. The one call that cannot be
    printed is [create_review_worktree] with a number of more digits than
    [str()] accepts: it raises [ValueError] and makes no call. *)
Theorem tool_result_well_formed config h t :
  if printable (limits h) t
  then exists w,
         snd (call_tool (Some config) h t) = Ok w /\ tool_invariant w
  else call_tool (Some config) h t = ([], Raise ValueError).
Proof.
  destruct (printable (limits h) t) eqn:Hp.
  - destruct (run_total (tool_args t) config h) as [r Hr].
    exists (tool_result t r). split.
    + apply call_tool_result; assumption.
    + apply tool_result_invariant.
  - apply call_tool_unprintable. exact Hp.
Qed.

(** X19. A pull request number of 4301 digits, with the limits of the
    interpreter at their defaults: [create_review_worktree] raises
    [ValueError] before it looks up the binary, where a number of six
    digits gives the command its decimal text. *)
Theorem oversized_pr_number_raises :
  call_tool (Some sample_config) (sample_host [] [] 0)
    (CreateReviewWorktree (10 ^ 4300) None)
  = ([], Raise ValueError)
  /\ fst (call_tool (Some sample_config) (sample_host [] [] 0)
            (CreateReviewWorktree 123456 (Some (lit "imi"))))
     = [Which (lit "imi");
        Exec [lit "/usr/bin/imi"; lit "--json"; lit "review";
              lit "123456"; lit "imi"];
        WaitFor 30].
Proof. split; vm_compute; reflexivity. Qed.

(** X10. Before [set_config] every tool raises the [RuntimeError] of
    [get_config] and makes no call: nothing is looked up and no process is
    created. After [set_config] the configuration is the one last set. *)
Theorem tools_need_config h t :
  call_tool initial_config h t
  = ([], Raise (RuntimeError
                  (lit "Config not initialized. Call set_config() first.")))
  /\ forall c c' st, get_config (set_config c' (set_config c st)) = Ok c'.
Proof. split; [destruct t; reflexivity | reflexivity]. Qed.

(** X16. An optional argument that is the empty string is taken as
    absent: the call behaves as the call without it. *)
Theorem blank_arguments_dropped _config h t :
  call_tool _config h (drop_blanks t) = call_tool _config h t.
Proof.
  assert (E : forall f x, extend_opt f (blank_to_none x) = extend_opt f x)
    by (intros f [[|c s]|]; reflexivity).
  assert (A : forall x, append_opt (blank_to_none x) = append_opt x)
    by (intros [[|c s]|]; reflexivity).
  destruct t;
    try (rewrite !call_tool_run_tool by reflexivity; f_equal;
         cbn [drop_blanks tool_args];
         unfold create_worktree_args, list_worktrees_args, show_status_args,
           create_project_args, navigate_worktree_args, remove_worktree_args,
           sync_worktrees_args, prune_worktrees_args;
         rewrite ?E, ?A; try reflexivity;
         destruct repo as [[|c s]|]; reflexivity).
  cbn [drop_blanks call_tool]. unfold create_review_worktree.
  destruct (get_config _config); [|reflexivity].
  destruct (py_str_int (limits h) pr_number); [|reflexivity].
  unfold create_review_worktree_args. rewrite A. reflexivity.
Qed.

(** ** The wrapper on the three kinds of ended child *)

Lemma run_selected args config h out err o e line kv b pd pe :
  completes args config h out err 0 ->
  decode out = Some o -> decode err = Some e ->
  last_qualifying (limits h) (split_nl o) line ->
  loads (limits h) (strip line) = Ok (JObject kv) ->
  validate_bool (dict_get (lit "success") (JBool true) kv) = Ok b ->
  validate_opt_dict (dict_get (lit "data") JNull kv) = Ok pd ->
  validate_opt_str (dict_get (lit "error") JNull kv) = Ok pe ->
  snd (run_imi_command args config h)
  = Ok {| success := b; data := pd; error := pe;
          stdout := Some (strip o); stderr := None; exit_code := 0 |}.
Proof.
  intros Hc Ho He Hsel Hloads Hb Hd Hm.
  rewrite (run_completed _ _ _ _ _ _ Hc).
  unfold parse_output, decode_utf8. rewrite Ho, He. cbn [bind].
  change (0 =? 0) with true. cbv iota.
  rewrite (parse_success_selected _ _ _ _ _ _ Hsel Hloads).
  unfold CLIResult_of_json. rewrite Hb, Hd, Hm. reflexivity.
Qed.

Lemma run_plain args config h out err o e :
  completes args config h out err 0 ->
  decode out = Some o -> decode err = Some e ->
  (forall l, In l (split_nl o) -> passed_over (limits h) l = true) ->
  snd (run_imi_command args config h)
  = Ok {| success := true; data := None; error := None;
          stdout := Some (strip o); stderr := Some (strip e);
          exit_code := 0 |}.
Proof.
  intros Hc Ho He Hno.
  rewrite (run_completed _ _ _ _ _ _ Hc).
  unfold parse_output, decode_utf8. rewrite Ho, He. cbn [bind].
  change (0 =? 0) with true. cbv iota.
  rewrite (parse_success_plain _ _ _ _ Hno). reflexivity.
Qed.

Lemma run_failed args config h out err o e rc :
  completes args config h out err rc -> rc <> 0 ->
  decode out = Some o -> decode err = Some e ->
  snd (run_imi_command args config h)
  = Ok (command_failed (strip o) (strip e) rc).
Proof.
  intros Hc Hrc Ho He.
  rewrite (run_completed _ _ _ _ _ _ Hc).
  unfold parse_output, decode_utf8. rewrite Ho, He. cbn [bind].
  apply Z.eqb_neq in Hrc. rewrite Hrc. reflexivity.
Qed.

Lemma tool_result_failure t r :
  success r = false ->
  tool_result t r = tool_failure t (str_or (error r) (lit "Unknown error")).
Proof.
  intros H. unfold tool_result, lenient_result, strict_result.
  rewrite H. destruct (lenient t); reflexivity.
Qed.

Lemma str_or_truthy s default :
  truthy s = true -> str_or (Some s) default = s.
Proof. intros H. unfold str_or. rewrite H. reflexivity. Qed.

(** ** The tools from end to end *)

(** X11. When the command ends with status zero, its output decodes, and
    the scan passes over every line of stdout (no line qualifies and on
    no line does [json.loads] fail with something that is not a decode
    error), the eight tools that ask for data report a failure with the
    error [Unknown error], while [list_worktrees] and [show_status] report
    a success whose data hold the trimmed stdout under the key [output].
    The arguments of the call can be printed. *)
Theorem plain_success_by_tool config h t out err o e :
  printable (limits h) t = true ->
  completes (tool_args t) config h out err 0 ->
  decode out = Some o -> decode err = Some e ->
  (forall l, In l (split_nl o) -> passed_over (limits h) l = true) ->
  snd (call_tool (Some config) h t)
  = Ok (if lenient t
        then tool_success t [(lit "output", JString (strip o))]
        else tool_failure t (lit "Unknown error")).
Proof.
  intros Hp Hc Ho He Hno.
  rewrite (call_tool_result _ _ _ _ Hp
             (run_plain _ _ _ _ _ _ _ Hc Ho He Hno)).
  unfold tool_result. destruct (lenient t); reflexivity.
Qed.

Lemma plain_success_by_tool_witness :
  snd (call_tool (Some sample_config)
         (sample_host (lit "feat-login  main
") [] 0) (ListWorktrees None true false))
  = Ok {| wr_success := true;
          wr_message := lit "Worktrees listed successfully";
          wr_data := Some [(lit "output", JString (lit "feat-login  main"))];
          wr_error := None |}.
Proof.
  apply (plain_success_by_tool sample_config
           (sample_host (lit "feat-login  main
") [] 0) (ListWorktrees None true false)
           (lit "feat-login  main
") [] (lit "feat-login  main
") []).
  - reflexivity.
  - apply sample_completes.
  - reflexivity.
  - reflexivity.
  - intros l [<-|[<-|[]]]; reflexivity.
Defined.

(** X12. When the scan selects a line whose fields pass the validation of
    the result model, with [success] true, data that are an object with
    at least one key, and an error that is absent, null or a string,
    every tool reports a success with exactly those data and no error:
    the error of the line is dropped. The arguments of the call can be
    printed. *)
Theorem structured_success_by_tool
    config h t out err o e line kv p d pe :
  printable (limits h) t = true ->
  completes (tool_args t) config h out err 0 ->
  decode out = Some o -> decode err = Some e ->
  last_qualifying (limits h) (split_nl o) line ->
  loads (limits h) (strip line) = Ok (JObject kv) ->
  validate_bool (dict_get (lit "success") (JBool true) kv) = Ok true ->
  validate_opt_dict (dict_get (lit "data") JNull kv) = Ok (Some (p :: d)) ->
  validate_opt_str (dict_get (lit "error") JNull kv) = Ok pe ->
  snd (call_tool (Some config) h t) = Ok (tool_success t (p :: d)).
Proof.
  intros Hp Hc Ho He Hsel Hkv Hb Hd Hm.
  rewrite (call_tool_result _ _ _ _ Hp
             (run_selected _ _ _ _ _ _ _ _ _ _ _ _ Hc Ho He Hsel Hkv Hb Hd Hm)).
  unfold tool_result. destruct (lenient t); reflexivity.
Qed.

Lemma structured_success_by_tool_witness :
  snd (call_tool (Some sample_config)
         (sample_host banner_stdout (lit "warn") 0)
         (CreateWorktree (lit "login") (lit "feat") None))
  = Ok {| wr_success := true;
          wr_message := lit "Worktree 'login' created successfully";
          wr_data := Some [(lit "path", JString (lit "/x"))];
          wr_error := None |}.
Proof.
  apply (structured_success_by_tool sample_config
           (sample_host banner_stdout (lit "warn") 0)
           (CreateWorktree (lit "login") (lit "feat") None)
           banner_stdout (lit "warn") banner_stdout (lit "warn")
           structured_line
           [(lit "success", JBool true);
            (lit "data", JObject [(lit "path", JString (lit "/x"))])]
           (lit "path", JString (lit "/x")) [] None).
  - reflexivity.
  - apply sample_completes.
  - reflexivity.
  - reflexivity.
  - exists [lit "Cloning..."; lit "{broken"], [lit "Done."; []].
    split; [reflexivity|]. split; [reflexivity|].
    intros l [<-|[<-|[]]]; reflexivity.
  - reflexivity.
  - reflexivity.
  - reflexivity.
  - reflexivity.
Defined.

(** X13. When the scan selects a line whose fields pass the validation of
    the result model, with [success] true, no data (the field is missing,
    null or an empty object) and an error that is absent, null or a
    string, the eight tools that ask for data report a failure, with the
    error of the line when it is a string that is not empty and
    [Unknown error] otherwise; [list_worktrees] and [show_status] report a
    success with the trimmed stdout under [output]. The arguments of the
    call can be printed. *)
Theorem structured_success_without_data
    config h t out err o e line kv pd pe :
  printable (limits h) t = true ->
  completes (tool_args t) config h out err 0 ->
  decode out = Some o -> decode err = Some e ->
  last_qualifying (limits h) (split_nl o) line ->
  loads (limits h) (strip line) = Ok (JObject kv) ->
  validate_bool (dict_get (lit "success") (JBool true) kv) = Ok true ->
  validate_opt_dict (dict_get (lit "data") JNull kv) = Ok pd ->
  data_truthy pd = false ->
  validate_opt_str (dict_get (lit "error") JNull kv) = Ok pe ->
  snd (call_tool (Some config) h t)
  = Ok (if lenient t
        then tool_success t [(lit "output", JString (strip o))]
        else tool_failure t (str_or pe (lit "Unknown error"))).
Proof.
  intros Hp Hc Ho He Hsel Hkv Hb Hd Hempty Hm.
  rewrite (call_tool_result _ _ _ _ Hp
             (run_selected _ _ _ _ _ _ _ _ _ _ _ _ Hc Ho He Hsel Hkv Hb Hd Hm)).
  unfold tool_result, lenient_result, strict_result, data_or_output.
  cbn [success data error stdout andb]. rewrite Hempty.
  destruct (lenient t); [|reflexivity].
  destruct pd as [[|kv' d]|]; [reflexivity | discriminate Hempty | reflexivity].
Qed.

Lemma structured_success_without_data_witness :
  snd (call_tool (Some sample_config)
         (sample_host (qlit "{'success': true, 'data': {}}") [] 0)
         (SyncWorktrees None))
  = Ok {| wr_success := false;
          wr_message := lit "Failed to sync worktrees";
          wr_data := None;
          wr_error := Some (lit "Unknown error") |}.
Proof.
  apply (structured_success_without_data sample_config
           (sample_host (qlit "{'success': true, 'data': {}}") [] 0)
           (SyncWorktrees None)
           (qlit "{'success': true, 'data': {}}") []
           (qlit "{'success': true, 'data': {}}") []
           (qlit "{'success': true, 'data': {}}")
           [(lit "success", JBool true); (lit "data", JObject [])]
           (Some []) None).
  - reflexivity.
  - apply sample_completes.
  - reflexivity.
  - reflexivity.
  - exists [], []. split; [reflexivity|]. split; [reflexivity|]. intros l [].
  - reflexivity.
  - reflexivity.
  - reflexivity.
  - reflexivity.
  - reflexivity.
Defined.

(** X14. When the binary does not resolve, every tool whose arguments can
    be printed reports a failure whose error is the message of the
    wrapper that names the binary; the only call made is the lookup. *)
Theorem missing_binary_by_tool config h t :
  printable (limits h) t = true ->
  shutil_which h (imi_binary_path config) = None ->
  call_tool (Some config) h t
  = ([Which (imi_binary_path config)],
     Ok (tool_failure t
           (lit "iMi binary not found: " ++ imi_binary_path config
            ++ lit ". Ensure iMi is installed and in PATH."))).
Proof.
  intros Hp Hw. rewrite (call_tool_run _ _ _ Hp).
  unfold run_imi_command. rewrite Hw.
  cbn [fst snd bind]. rewrite tool_result_failure by reflexivity.
  reflexivity.
Qed.

Lemma missing_binary_by_tool_witness :
  call_tool (Some sample_config) bare_host ListTypes
  = ([Which (lit "imi")],
     Ok {| wr_success := false;
           wr_message := lit "Failed to list worktree types";
           wr_data := None;
           wr_error := Some (lit "iMi binary not found: imi. Ensure iMi is installed and in PATH.") |}).
Proof.
  apply (missing_binary_by_tool sample_config bare_host ListTypes).
  - reflexivity.
  - reflexivity.
Defined.

(** X15. When the child has not ended at the configured timeout, every
    tool whose arguments can be printed reports a failure whose error
    names the configured number of seconds. *)
Theorem timeout_by_tool config h t :
  printable (limits h) t = true ->
  exceeds_timeout (tool_args t) config h ->
  snd (call_tool (Some config) h t)
  = Ok (tool_failure t
          (lit "Command timed out after "
           ++ str_of_int (timeout_seconds config) ++ lit " seconds")).
Proof.
  intros Hp Hx. destruct (run_timed_out _ _ _ Hx) as [Hr _].
  rewrite (call_tool_run _ _ _ Hp), Hr. cbn [fst snd bind].
  rewrite tool_result_failure by reflexivity. reflexivity.
Qed.

Lemma timeout_by_tool_witness :
  snd (call_tool (Some sample_config) (hanging_host [] [])
         (PruneWorktrees None true))
  = Ok {| wr_success := false;
          wr_message := lit "Failed to prune worktrees";
          wr_data := None;
          wr_error := Some (lit "Command timed out after 30 seconds") |}.
Proof.
  apply (timeout_by_tool sample_config (hanging_host [] [])
           (PruneWorktrees None true)).
  - reflexivity.
  - apply sample_hangs.
Defined.

(** X17. When the scan selects a line whose fields pass the validation of
    the result model, with [success] false, data that are absent, null or
    an object, and an error that is absent, null or a string, every tool
    reports a failure: its error is the error of the line when it is a
    string that is not empty, and [Unknown error] otherwise; data on the
    line are not passed on. The arguments of the call can be printed. *)
Theorem reported_failure_by_tool
    config h t out err o e line kv pd pe :
  printable (limits h) t = true ->
  completes (tool_args t) config h out err 0 ->
  decode out = Some o -> decode err = Some e ->
  last_qualifying (limits h) (split_nl o) line ->
  loads (limits h) (strip line) = Ok (JObject kv) ->
  validate_bool (dict_get (lit "success") (JBool true) kv) = Ok false ->
  validate_opt_dict (dict_get (lit "data") JNull kv) = Ok pd ->
  validate_opt_str (dict_get (lit "error") JNull kv) = Ok pe ->
  snd (call_tool (Some config) h t)
  = Ok (tool_failure t (str_or pe (lit "Unknown error"))).
Proof.
  intros Hp Hc Ho He Hsel Hkv Hb Hd Hm.
  rewrite (call_tool_result _ _ _ _ Hp
             (run_selected _ _ _ _ _ _ _ _ _ _ _ _ Hc Ho He Hsel Hkv Hb Hd Hm)).
  rewrite tool_result_failure by reflexivity. reflexivity.
Qed.

Lemma reported_failure_by_tool_witness :
  snd (call_tool (Some sample_config)
         (sample_host (qlit "{'success': false, 'error': 'locked'}") [] 0)
         (ShowStatus None))
  = Ok {| wr_success := false;
          wr_message := lit "Failed to retrieve status";
          wr_data := None;
          wr_error := Some (lit "locked") |}.
Proof.
  apply (reported_failure_by_tool sample_config
           (sample_host (qlit "{'success': false, 'error': 'locked'}") [] 0)
           (ShowStatus None)
           (qlit "{'success': false, 'error': 'locked'}") []
           (qlit "{'success': false, 'error': 'locked'}") []
           (qlit "{'success': false, 'error': 'locked'}")
           [(lit "success", JBool false); (lit "error", JString (lit "locked"))]
           None (Some (lit "locked"))).
  - reflexivity.
  - apply sample_completes.
  - reflexivity.
  - reflexivity.
  - exists [], []. split; [reflexivity|]. split; [reflexivity|]. intros l [].
  - reflexivity.
  - reflexivity.
  - reflexivity.
  - reflexivity.
Defined.

(** X18. When the child ends with a non-zero status and its output
    decodes, every tool whose arguments can be printed reports a failure
    whose error is the trimmed stderr if that is not empty, else the
    trimmed stdout if that is not empty, else the text with the exit
    status. A structured line in the output is not read. *)
Theorem non_zero_exit_by_tool config h t out err o e rc :
  printable (limits h) t = true ->
  completes (tool_args t) config h out err rc -> rc <> 0 ->
  decode out = Some o -> decode err = Some e ->
  snd (call_tool (Some config) h t)
  = Ok (tool_failure t
          (if truthy (strip e) then strip e
           else if truthy (strip o) then strip o
           else lit "Command failed with exit code " ++ str_of_int rc)).
Proof.
  intros Hp Hc Hrc Ho He.
  rewrite (call_tool_result _ _ _ _ Hp
             (run_failed _ _ _ _ _ _ _ _ Hc Hrc Ho He)).
  rewrite tool_result_failure by reflexivity.
  unfold command_failed. cbn [error].
  destruct (truthy (strip e)) eqn:E1.
  - rewrite E1. rewrite (str_or_truthy _ _ E1). reflexivity.
  - destruct (truthy (strip o)) eqn:E2.
    + rewrite (str_or_truthy _ _ E2). reflexivity.
    + reflexivity.
Qed.

Lemma non_zero_exit_by_tool_witness :
  snd (call_tool (Some sample_config)
         (sample_host (qlit "{'success': true, 'data': {'path': '/x'}}")
            (lit "fatal: not a git repository
") 128)
         (RemoveWorktree (lit "login") None false false))
  = Ok {| wr_success := false;
          wr_message := lit "Failed to remove worktree 'login'";
          wr_data := None;
          wr_error := Some (lit "fatal: not a git repository") |}.
Proof.
  apply (non_zero_exit_by_tool sample_config
           (sample_host (qlit "{'success': true, 'data': {'path': '/x'}}")
              (lit "fatal: not a git repository
") 128)
           (RemoveWorktree (lit "login") None false false)
           (qlit "{'success': true, 'data': {'path': '/x'}}")
           (lit "fatal: not a git repository
")
           (qlit "{'success': true, 'data': {'path': '/x'}}")
           (lit "fatal: not a git repository
") 128).
  - reflexivity.
  - apply sample_completes.
  - lia.
  - reflexivity.
  - reflexivity.
Defined.

(** ** The tools when the line is refused *)

Lemma unexpected_by_tool config h t x :
  printable (limits h) t = true ->
  snd (run_imi_command (tool_args t) config h) = Ok (unexpected x) ->
  snd (call_tool (Some config) h t)
  = Ok (tool_failure t (lit "Unexpected error: " ++ str_exn x)).
Proof.
  intros Hp Hr. rewrite (call_tool_result _ _ _ _ Hp Hr).
  rewrite tool_result_failure by reflexivity.
  cbn [error unexpected]. rewrite str_or_truthy; [reflexivity|].
  reflexivity.
Qed.

(** X20. When the scan ends at a line on which [json.loads] fails with
    something that is not a decode error (an object nested too deep, an
    integer of too many digits), every tool whose arguments can be
    printed reports a failure whose error starts with
    [Unexpected error: ], also when an earlier line qualifies. *)
Theorem decoder_failure_by_tool config h t out err o e x :
  printable (limits h) t = true ->
  completes (tool_args t) config h out err 0 ->
  decode out = Some o -> decode err = Some e ->
  scan_aborts (limits h) (split_nl o) x ->
  (x = RecursionError \/ x = ValueError)
  /\ exists m,
       snd (call_tool (Some config) h t)
       = Ok (tool_failure t (lit "Unexpected error: " ++ m)).
Proof.
  intros Hp Hc Ho He Hab. split.
  - exact (proj2 (parse_success_aborts _ o [] 0 x Hab)).
  - exists (str_exn x). apply (unexpected_by_tool _ _ _ _ Hp).
    exact (run_aborts _ _ _ _ _ _ _ _ Hc Ho He Hab).
Qed.

Lemma decoder_failure_by_tool_witness :
  (RecursionError = RecursionError \/ RecursionError = ValueError)
  /\ exists m,
       snd (call_tool (Some sample_config)
              (sample_host (structured_line ++ [10] ++ deep_line) [] 0)
              ListTypes)
       = Ok (tool_failure ListTypes (lit "Unexpected error: " ++ m)).
Proof.
  apply (decoder_failure_by_tool sample_config
           (sample_host (structured_line ++ [10] ++ deep_line) [] 0)
           ListTypes
           (structured_line ++ [10] ++ deep_line) []
           (structured_line ++ [10] ++ deep_line) [] RecursionError).
  - reflexivity.
  - apply sample_completes.
  - vm_compute. reflexivity.
  - reflexivity.
  - exists [structured_line], deep_line, [].
    split; [vm_compute; reflexivity|].
    split; [exact deep_line_aborts|]. intros l [].
Defined.

(** X21. When the scan selects a line one of whose fields the result
    model refuses ([success] not a boolean nor a value read as one, data
    that are neither null nor an object, an error that is neither null
    nor a string), every tool whose arguments can be printed reports a
    failure whose error starts with [Unexpected error: ]. *)
Theorem invalid_line_by_tool config h t out err o e line kv :
  printable (limits h) t = true ->
  completes (tool_args t) config h out err 0 ->
  decode out = Some o -> decode err = Some e ->
  last_qualifying (limits h) (split_nl o) line ->
  loads (limits h) (strip line) = Ok (JObject kv) ->
  (exists x,
     validate_bool (dict_get (lit "success") (JBool true) kv) = Raise x)
  \/ (exists x,
        validate_opt_dict (dict_get (lit "data") JNull kv) = Raise x)
  \/ (exists x,
        validate_opt_str (dict_get (lit "error") JNull kv) = Raise x) ->
  exists m,
    snd (call_tool (Some config) h t)
    = Ok (tool_failure t (lit "Unexpected error: " ++ m)).
Proof.
  intros Hp Hc Ho He Hsel Hkv Hbad.
  exists (str_exn ValidationError). apply (unexpected_by_tool _ _ _ _ Hp).
  rewrite (run_completed _ _ _ _ _ _ Hc).
  unfold parse_output, decode_utf8. rewrite Ho, He. cbn [bind].
  change (0 =? 0) with true. cbv iota.
  rewrite (parse_success_selected _ _ _ _ _ _ Hsel Hkv).
  unfold CLIResult_of_json.
  destruct Hbad as [[x Hx] | [[x Hx] | [x Hx]]]; rewrite Hx.
  - reflexivity.
  - destruct (validate_bool (dict_get (lit "success") (JBool true) kv));
      reflexivity.
  - destruct (validate_bool (dict_get (lit "success") (JBool true) kv)),
      (validate_opt_dict (dict_get (lit "data") JNull kv)); reflexivity.
Qed.

Lemma invalid_line_by_tool_witness :
  exists m,
    snd (call_tool (Some sample_config)
           (sample_host (qlit "{'success': false, 'data': [1]}") [] 0)
           (ShowStatus None))
    = Ok (tool_failure (ShowStatus None) (lit "Unexpected error: " ++ m)).
Proof.
  apply (invalid_line_by_tool sample_config
           (sample_host (qlit "{'success': false, 'data': [1]}") [] 0)
           (ShowStatus None)
           (qlit "{'success': false, 'data': [1]}") []
           (qlit "{'success': false, 'data': [1]}") []
           (qlit "{'success': false, 'data': [1]}")
           [(lit "success", JBool false); (lit "data", JArray [JInt 1])]).
  - reflexivity.
  - apply sample_completes.
  - reflexivity.
  - reflexivity.
  - exists [], []. split; [reflexivity|]. split; [reflexivity|]. intros l [].
  - reflexivity.
  - right. left. exists ValidationError. reflexivity.
Defined.
